(** * steemtools (megaphone): account history replay, reward conversion, ticker

    A shallow embedding of three parts of the [megaphone] package:

    - [Account.virtual_op_count], [Account.history], [Account.history2]
      (megaphone/base.py), the paginated replay of an account's operation log;
    - [Converter] (megaphone/base.py), the reward arithmetic;
    - [Ticker.get_ticker_symbol], [Ticker.price] (megaphone/ticker.py).

    Python integers are unbounded and are modelled by [Z].  Python numbers that
    go through true division are modelled by exact rationals [Q]; binary64
    rounding is not modelled.  Python exceptions are modelled by an error
    type. *)

From Stdlib Require Import ZArith List Sorted String Ascii Bool Lia.
From Stdlib Require Import QArith Qround Lqa.
Import ListNotations.

Set Warnings "-register-all".

Open Scope Z_scope.

(** ** Python values shared by the three parts *)

Module Py.

(** The exceptions the modelled code can raise. *)
Inductive exn : Type :=
| TickerError
| ZeroDivisionError
| KeyError
| TypeError
| ValueError
| IndexError
| AttributeError.

(** The outcome of a call: a value, or an exception that propagates. *)
Inductive result (A : Type) : Type :=
| Ok (a : A)
| Raise (e : exn).

Arguments Ok {A} a.
Arguments Raise {A} e.

Definition bind {A B : Type} (r : result A) (k : A -> result B) : result B :=
  match r with
  | Ok a => k a
  | Raise e => Raise e
  end.

(** [a / b] on Python numbers, read as exact rationals. *)
Definition true_div (a b : Q) : result Q :=
  if Qeq_bool b 0 then Raise ZeroDivisionError else Ok (a / b)%Q.

(** [int(x)]: truncation toward zero. *)
Definition int (x : Q) : Z := Z.quot (Qnum x) (Zpos (Qden x)).

End Py.

(** ** Account history (megaphone/base.py, class Account) *)

Module History.

(** What the node stores with an operation: the second component of an item
    returned by [get_account_history], i.e. the dictionary with the keys
    ['op'] (a pair of type and body), ['timestamp'] and ['trx_id'].  The body
    of an operation is kept as opaque text. *)
Record entry : Type := mkEntry {
  entry_op_type : string;
  entry_op : string;
  entry_timestamp : string;
  entry_trx_id : string
}.

(** An item of a batch is the pair [(index, entry)]; [item[0]] is [fst]. *)
Definition item : Type := (Z * entry)%type.

(** The dictionary built by [construct_op]. *)
Record operation : Type := mkOperation {
  index : Z;
  trx_id : string;
  timestamp : string;
  op_type : string;
  op : string
}.

(** The values [filter_by] can take.  The code tests [filter_by is None],
    [type(filter_by) is list] and [type(filter_by) is str]; any other Python
    value (a tuple, a set object, ...) passes none of the tests. *)
Inductive tag_filter : Type :=
| FilterNone
| FilterList (tags : list string)
| FilterStr (tag : string)
| FilterOther.

(** What one call of the generator has done once it is driven with a given
    number of loop iterations: the operations yielded so far, the remote
    calls [(index, limit)] issued so far, oldest first, and whether the
    generator has returned. *)
Record run : Type := mkRun {
  yielded : list operation;
  fetches : list (Z * Z);
  finished : bool
}.

Definition batch_size : Z := 1000.

Definition construct_op (it : item) : operation :=
  {| index := fst it;
     trx_id := entry_trx_id (snd it);
     timestamp := entry_timestamp (snd it);
     op_type := entry_op_type (snd it);
     op := entry_op (snd it) |}.

(** [op_type in filter_by] for a list of tags. *)
Definition tag_in (t : string) (tags : list string) : bool :=
  existsb (String.eqb t) tags.

(** The [if filter_by is None: ... else: ...] block of the loop body: the
    operations yielded for one item. *)
Definition emit (filter_by : tag_filter) (it : item) : list operation :=
  match filter_by with
  | FilterNone => [construct_op it]
  | FilterList tags =>
      if tag_in (entry_op_type (snd it)) tags then [construct_op it] else []
  | FilterStr tag =>
      if String.eqb (entry_op_type (snd it)) tag then [construct_op it] else []
  | FilterOther => []
  end.

(** [for item in history: ...]: the operations yielded while walking one
    batch, and whether the walk hit [index >= max_index] and returned. *)
Fixpoint for_items (max_index : Z) (filter_by : tag_filter) (history : list item)
  : list operation * bool :=
  match history with
  | [] => ([], false)
  | it :: rest =>
      if fst it >=? max_index then ([], true)
      else
        let r := for_items max_index filter_by rest in
        (emit filter_by it ++ fst r, snd r)
  end.

Section Replay.

(** [self.golos.rpc.get_account_history(self.account, index, limit)] for
    the account at hand: the remote ledger, a capability of the object. *)
Variable get_account_history : Z -> Z -> list item.

(** [virtual_op_count]: the index of the item returned by the tail fetch,
    [0] when the fetch returns no item ([IndexError]). *)
Definition virtual_op_count : Z :=
  match get_account_history (-1) 0 with
  | [] => 0
  | last_item :: _ => fst last_item
  end.

(** The [while True] loop of [history]; one unit of fuel is one iteration,
    that is one remote batch. *)
Fixpoint history_loop (max_index : Z) (filter_by : tag_filter) (start_index : Z)
    (fuel : nat) (i : Z) : run :=
  match fuel with
  | O => {| yielded := []; fetches := []; finished := false |}
  | S fuel' =>
      let limit := if i =? start_index then batch_size else batch_size - 1 in
      let history := get_account_history i limit in
      let r := for_items max_index filter_by history in
      if snd r then
        {| yielded := fst r; fetches := [(i, limit)]; finished := true |}
      else
        let k := history_loop max_index filter_by start_index fuel'
                   (i + batch_size) in
        {| yielded := fst r ++ yielded k;
           fetches := (i, limit) :: fetches k;
           finished := finished k |}
  end.

(** [history(filter_by, start)] driven for at most [fuel] batches. *)
Definition history (filter_by : tag_filter) (start : Z) (fuel : nat) : run :=
  let max_index := virtual_op_count in
  if max_index =? 0 then
    {| yielded := []; fetches := [(-1, 0)]; finished := true |}
  else
    let start_index := start + batch_size in
    let k := history_loop max_index filter_by start_index fuel start_index in
    {| yielded := yielded k;
       fetches := (-1, 0) :: fetches k;
       finished := finished k |}.

(** [history2(filter_by, take)]: one more count check, then [history]. *)
Definition history2 (filter_by : tag_filter) (take : Z) (fuel : nat) : run :=
  let max_index := virtual_op_count in
  let start_index := max_index - take in
  let start_index := if start_index <? 0 then 0 else start_index in
  let k := history filter_by start_index fuel in
  {| yielded := yielded k;
     fetches := (-1, 0) :: fetches k;
     finished := finished k |}.

(** The specification's wording of [replayRecent]: [replay] started at
    [max(0, operationCount - take)]. *)
Definition replayRecent_spec (filter_by : tag_filter) (take : Z) (fuel : nat)
  : list operation :=
  yielded (history filter_by (Z.max 0 (virtual_op_count - take)) fuel).

End Replay.

(** Modelled from the spec: the log of an account as the node keeps it,
    which is not part of the package.  The operations are numbered 0, 1,
    2, ... in the order of the log, with no gap. *)
Fixpoint number_from (k : Z) (log : list entry) : list item :=
  match log with
  | [] => []
  | e :: rest => (k, e) :: number_from (k + 1) rest
  end.

Definition in_window (lo hi : Z) (it : item) : bool :=
  (lo <=? fst it) && (fst it <=? hi).

(** Modelled from the spec: the remote call [getAccountHistory(account,
    index, limit)], which is served by the node and is not part of the
    package.  A call returns, oldest first, the items that end at the
    requested index, inclusive, and reach back [limit] items; the index
    [-1] stands for the tail of the log. *)
Definition ledger (log : list entry) (index limit : Z) : list item :=
  let last := Z.of_nat (List.length log) - 1 in
  let upto := if index <? 0 then last else index in
  List.filter (in_window (upto - limit) upto) (number_from 0 log).

(** The [limit] requested at [i], and the index at which that batch
    starts. *)
Definition batch_limit (start_index i : Z) : Z :=
  if i =? start_index then batch_size else batch_size - 1.

Definition batch_lo (start_index i : Z) : Z :=
  i - batch_limit start_index i.

(** Batches come sorted by index, without repetition. *)
Definition ascending (l : list item) : Prop :=
  StronglySorted (fun a b => fst a < fst b) l.

(** Whether the index of an item lies in the half-open range [[lo, hi)]. *)
Definition between (lo hi : Z) (it : item) : bool :=
  (lo <=? fst it) && (fst it <? hi).

(** Whether an operation passes [filter_by]. *)
Definition matches (filter_by : tag_filter) (o : operation) : bool :=
  match filter_by with
  | FilterNone => true
  | FilterList tags => tag_in (op_type o) tags
  | FilterStr tag => String.eqb (op_type o) tag
  | FilterOther => false
  end.

(** The operations of a log whose index lies in [[start, max_index)], where
    [max_index] is what [virtual_op_count] returns for that log. *)
Definition in_range (log : list entry) (start : Z) : list operation :=
  map construct_op
    (List.filter (fun it => (start <=? fst it)
                       && (fst it <? virtual_op_count (ledger log)))
            (number_from 0 log)).

(** Sample logs used in the examples. *)
Definition two_ops : list entry :=
  [ mkEntry "vote" "{voter: a}" "2016-09-01T00:00:00" "t0";
    mkEntry "transfer" "{to: b}" "2016-09-01T00:00:03" "t1" ].

Definition sample_log : list entry :=
  [ mkEntry "vote" "{voter: a}" "2016-09-01T00:00:00" "t0";
    mkEntry "transfer" "{to: b}" "2016-09-01T00:00:03" "t1";
    mkEntry "vote" "{voter: c}" "2016-09-01T00:00:06" "t2";
    mkEntry "comment" "{author: a}" "2016-09-01T00:00:09" "t3";
    mkEntry "vote" "{voter: d}" "2016-09-01T00:00:12" "t4" ].

End History.

(** ** Reward arithmetic (megaphone/base.py, class Converter) *)

Module Converter.
Import Py.

Local Open Scope Q_scope.

Definition CONTENT_CONSTANT : Q := 2000000000000.

(** [steem_per_mvests()] is a cached value read from the node; the
    functions below take it as the argument [steem_per_mvests]. *)

Definition vests_to_power (steem_per_mvests vests : Q) : Q :=
  vests * steem_per_mvests / 1000000.

Definition sp_to_vests (steem_per_mvests sp : Q) : result Q :=
  true_div (sp * 1000000) steem_per_mvests.

Definition sp_to_rshares (steem_per_mvests sp voting_power vote_pct : Q)
  : result Q :=
  bind (sp_to_vests steem_per_mvests sp) (fun vests =>
    let vesting_shares := int (vests * 1000000) in
    let power := (((voting_power * vote_pct) / 10000) / 200) + 1 in
    let rshares := (power * inject_Z vesting_shares) / 10000 in
    Ok rshares).

Definition rshares_2_weight (rshares : Q) : result Q :=
  let _max := inject_Z (2 ^ 64 - 1) in
  true_div (_max * rshares) (2 * CONTENT_CONSTANT + rshares).

(** The specification's wording of [powerToRshares], after the ledger's
    integer arithmetic: every division truncates. *)
Definition powerToRshares_truncating
    (steem_per_mvests sp : Q) (voting_power vote_pct : Z) : result Z :=
  bind (sp_to_vests steem_per_mvests sp) (fun vests =>
    let vesting_shares := int (vests * 1000000) in
    let power := (Z.quot (Z.quot (voting_power * vote_pct) 10000) 200 + 1)%Z in
    Ok (Z.quot (power * vesting_shares) 10000)).

(** Two outcomes are the same when they raise the same exception or return
    equal rationals. *)
Definition same_outcome (a b : result Q) : Prop :=
  match a, b with
  | Ok x, Ok y => x == y
  | Raise e, Raise f => e = f
  | _, _ => False
  end.

End Converter.

(** ** Python text (the [str] methods the ticker uses) *)

Module Str.

Definition chars : string -> list ascii := list_ascii_of_string.
Definition text : list ascii -> string := string_of_list_ascii.

Fixpoint starts_with (p s : list ascii) : bool :=
  match p, s with
  | [], _ => true
  | _ :: _, [] => false
  | a :: p', b :: s' => Ascii.eqb a b && starts_with p' s'
  end.

Fixpoint find (p s : list ascii) : bool :=
  starts_with p s
  || match s with
     | [] => false
     | _ :: s' => find p s'
     end.

(** [needle in hay] for two texts. *)
Definition contains (needle hay : string) : bool :=
  find (chars needle) (chars hay).

(** Leftmost, non-overlapping replacement; [fuel] bounds the length of
    what is left to scan. *)
Fixpoint replace_chars (fuel : nat) (old new s : list ascii) : list ascii :=
  match fuel, s with
  | S fuel', c :: s' =>
      if starts_with old s
      then new ++ replace_chars fuel' old new (skipn (List.length old) s)
      else c :: replace_chars fuel' old new s'
  | _, _ => s
  end.

(** [s.replace(old, new)].  With an empty [old] Python puts [new] in front
    of every character and at the end. *)
Definition replace (old new s : string) : string :=
  match chars old with
  | [] => text (chars new ++ flat_map (fun c => c :: chars new) (chars s))
  | _ :: _ =>
      text (replace_chars (List.length (chars s)) (chars old) (chars new)
              (chars s))
  end.

(** [s.upper()] on ASCII text: the letters a to z move up, the rest
    stays. *)
Definition upper_char (c : ascii) : ascii :=
  let n := nat_of_ascii c in
  if ((97 <=? n) && (n <=? 122))%nat then ascii_of_nat (n - 32) else c.

Definition upper (s : string) : string := text (map upper_char (chars s)).

(** [s.split(sep)] for a separator of one character. *)
Fixpoint split_chars (sep : ascii) (s : list ascii) : list (list ascii) :=
  match s with
  | [] => [[]]
  | c :: s' =>
      if Ascii.eqb c sep then [] :: split_chars sep s'
      else
        match split_chars sep s' with
        | [] => [[c]]
        | p :: ps => (c :: p) :: ps
        end
  end.

Definition split (sep : ascii) (s : string) : list string :=
  map text (split_chars sep (chars s)).

(** The value of a plain decimal numeral such as [100] or [17.5]; the part
    of Python's [float] on text that the examples need. *)
Definition digit (c : ascii) : option Z :=
  let n := nat_of_ascii c in
  if ((48 <=? n) && (n <=? 57))%nat then Some (Z.of_nat (n - 48)) else None.

Fixpoint decimal_chars (seen_dot : bool) (num : Z) (den : positive)
    (s : list ascii) : option Q :=
  match s with
  | [] => Some (num # den)
  | c :: s' =>
      if Ascii.eqb c "."%char then
        if seen_dot then None else decimal_chars true num den s'
      else
        match digit c with
        | None => None
        | Some d =>
            decimal_chars seen_dot (10 * num + d)
              (if seen_dot then 10 * den else den) s'
        end
  end.

Definition decimal (s : string) : option Q :=
  match chars s with
  | [] => None
  | cs => decimal_chars false 0 1 cs
  end.

End Str.

(** ** Ticker (megaphone/ticker.py, class Ticker) *)

Module Ticker.
Import Py.

Local Open Scope string_scope.

(** A Python [dict] with text keys, in insertion order. *)
Definition dict (V : Type) : Type := list (string * V).

Fixpoint dict_set {V} (d : dict V) (k : string) (v : V) : dict V :=
  match d with
  | [] => [(k, v)]
  | (k', v') :: d' =>
      if String.eqb k' k then (k, v) :: d' else (k', v') :: dict_set d' k v
  end.

Fixpoint dict_get {V} (d : dict V) (k : string) : result V :=
  match d with
  | [] => Raise KeyError
  | (k', v) :: d' => if String.eqb k' k then Ok v else dict_get d' k
  end.

Definition dict_of {V} (items : list (string * V)) : dict V :=
  fold_left (fun d kv => dict_set d (fst kv) (snd kv)) items [].

(** [x in l] for a list of texts. *)
Definition in_list (x : string) (l : list string) : bool :=
  existsb (String.eqb x) l.

(** [URLS]: each template is kept as the text before and after its [%s]. *)
Definition URLS : dict (string * string) :=
  [ ("btc-e", ("https://btc-e.com/api/2/", "/ticker"));
    ("bitfinex", ("https://api.bitfinex.com/v1/pubticker/", ""));
    ("bittrex",
     ("https://bittrex.com/api/v1.1/public/getmarketsummary?market=", ""));
    ("bitstamp", ("https://www.bitstamp.net/api/v2/ticker/", ""));
    ("coinbase", ("https://api.exchange.coinbase.com/products/", "/ticker"));
    ("poloniex",
     ("https://poloniex.com/public?command=returnTicker&currencyPair=", ""))
  ].

Definition RESPONSES_price : dict string :=
  [ ("btc-e", "avg"); ("bitfinex", "last_price"); ("bittrex", "Last");
    ("bitstamp", "last"); ("coinbase", "price"); ("poloniex", "last") ].

Definition RESPONSES_volume : dict string :=
  [ ("btc-e", "vol_cur"); ("bitfinex", "volume"); ("bittrex", "BaseVolume");
    ("bitstamp", "volume"); ("coinbase", "volume");
    ("poloniex", "baseVolume") ].

(** The format call that puts the second part, the separator and the
    first part together; the parts are the unpacked result of [split]. *)
Definition format_1_0 (sep : string) (parts : list string) : result string :=
  match parts with
  | p0 :: p1 :: _ => Ok (p1 ++ sep ++ p0)
  | _ => Raise IndexError
  end.

Definition get_ticker_symbol (currency_pair exchange_name : string)
  : result string :=
  if negb (in_list exchange_name (map fst URLS)) then Raise TickerError
  else if negb (Str.contains "/" currency_pair) then Raise TickerError
  else
    let currency_pair :=
      if in_list exchange_name ["bittrex"; "poloniex"]
      then Str.upper (Str.replace "usd" "usdt" currency_pair)
      else currency_pair in
    if String.eqb exchange_name "bittrex" then
      format_1_0 "-" (Str.split "/"%char currency_pair)
    else if String.eqb exchange_name "poloniex" then
      format_1_0 "_" (Str.split "/"%char currency_pair)
    else if in_list exchange_name ["btc-e"] then
      Ok (Str.replace "/" "_" currency_pair)
    else if in_list exchange_name ["coinbase"] then
      Ok (Str.replace "/" "-" currency_pair)
    else
      Ok (Str.replace "/" "" currency_pair).

(** The body of a response once parsed: what [response.json()] returns. *)
Inductive json : Type :=
| JNull
| JBool (b : bool)
| JNum (q : Q)
| JStr (s : string)
| JList (l : list json)
| JDict (d : dict json).

(** An element of the list returned by [grequests.map]: the empty text of
    the exception handler when the request failed or timed out, otherwise a
    response with its status, its URL and its body ([None] when the body is
    not JSON, so that [json()] raises). *)
Inductive response : Type :=
| NoResponse
| Response (status_code : Z) (url : string) (body : option json).

(** Truth value of a parsed body. *)
Definition truthy (j : json) : bool :=
  match j with
  | JNull => false
  | JBool b => b
  | JNum q => negb (Qeq_bool q 0)
  | JStr s => negb (String.eqb s "")
  | JList l => match l with [] => false | _ => true end
  | JDict d => match d with [] => false | _ => true end
  end.

(** [key in j] for a text [key]. *)
Definition py_in (key : string) (j : json) : result bool :=
  match j with
  | JDict d => Ok (in_list key (map fst d))
  | JList l =>
      Ok (existsb (fun x => match x with
                            | JStr s => String.eqb s key
                            | _ => false
                            end) l)
  | JStr s => Ok (Str.contains key s)
  | _ => Raise TypeError
  end.

(** [j[key]] for a text [key]. *)
Definition getitem (j : json) (key : string) : result json :=
  match j with
  | JDict d => dict_get d key
  | _ => Raise TypeError
  end.

(** [j[0]]. *)
Definition getitem_0 (j : json) : result json :=
  match j with
  | JList [] => Raise IndexError
  | JList (x :: _) => Ok x
  | JStr EmptyString => Raise IndexError
  | JStr (String c _) => Ok (JStr (String c EmptyString))
  | JDict _ => Raise KeyError
  | _ => Raise TypeError
  end.

(** A surviving quote: [{"price": price, "volume": volume}]. *)
Record quote : Type := mkQuote { quote_price : Q; quote_volume : Q }.

Fixpoint Qsum (l : list Q) : Q :=
  match l with
  | [] => 0%Q
  | x :: rest => (x + Qsum rest)%Q
  end.

(** [np.average(a, weights=w)] on two lists of equal length: it raises
    [ZeroDivisionError] when the weights sum to zero. *)
Definition average (a w : list Q) : result Q :=
  let scl := Qsum w in
  if Qeq_bool scl 0 then Raise ZeroDivisionError
  else Ok (Qsum (map (fun aw => (fst aw * snd aw)%Q) (combine a w)) / scl)%Q.

Section Price.

(** [float(s)] for a text [s]; [None] stands for [ValueError]. *)
Variable float_of_text : string -> option Q.

(** What the request sent to a URL comes back as. *)
Variable get : string -> response.

Definition float (j : json) : result Q :=
  match j with
  | JNum q => Ok q
  | JBool b => Ok (if b then 1 else 0)%Q
  | JStr s =>
      match float_of_text s with
      | Some q => Ok q
      | None => Raise ValueError
      end
  | _ => Raise TypeError
  end.

(** [dict((k, v % get_ticker_symbol(pair, k)) for k, v in URLS.items())]. *)
Fixpoint format_urls (pair : string) (templates : dict (string * string))
  : result (list (string * string)) :=
  match templates with
  | [] => Ok []
  | (k, (before, after)) :: rest =>
      bind (get_ticker_symbol pair k) (fun symbol =>
      bind (format_urls pair rest) (fun urls =>
      Ok ((k, before ++ symbol ++ after) :: urls)))
  end.

(** The comprehension that keeps the responses with a status code of 200
    and a truthy body. *)
Fixpoint valid_responses (responses : list response)
  : result (list response) :=
  match responses with
  | [] => Ok []
  | x :: rest =>
      bind (match x with
            | NoResponse => Ok false
            | Response status_code _ body =>
                if (status_code =? 200)%Z then
                  match body with
                  | Some j => Ok (truthy j)
                  | None => Raise ValueError
                  end
                else Ok false
            end) (fun keep =>
      bind (valid_responses rest) (fun valid =>
      Ok (if keep then x :: valid else valid)))
  end.

(** The unwrapping of the ticker from the body, by exchange. *)
Definition data_of (pair exchange : string) (j : json) : result json :=
  if in_list exchange ["okcoin"; "btc-e"] then getitem j "ticker"
  else if String.eqb exchange "bittrex" then
    bind (getitem j "result") getitem_0
  else if String.eqb exchange "poloniex" then
    bind (get_ticker_symbol pair "poloniex") (getitem j)
  else Ok j.

(** One turn of [for response in valid_responses]. *)
Definition record_quote (pair : string) (urls_rev : dict string)
    (prices : dict quote) (r : response) : result (dict quote) :=
  match r with
  | NoResponse => Raise TypeError
  | Response _ url None => Raise ValueError
  | Response _ url (Some j) =>
      bind (py_in "error" j) (fun has_error =>
      bind (if has_error
            then bind (getitem j "error") (py_in "invalid")
            else Ok false) (fun skip =>
      if skip then Ok prices
      else
        bind (dict_get urls_rev url) (fun exchange =>
        bind (data_of pair exchange j) (fun data =>
        bind (dict_get RESPONSES_price exchange) (fun price_key =>
        bind (getitem data price_key) (fun price_field =>
        bind (float price_field) (fun price =>
        bind (dict_get RESPONSES_volume exchange) (fun volume_key =>
        bind (getitem data volume_key) (fun volume_field =>
        bind (float volume_field) (fun volume =>
        Ok (dict_set prices exchange
              {| quote_price := price; quote_volume := volume |})))))))))))
  end.

Fixpoint record_quotes (pair : string) (urls_rev : dict string)
    (prices : dict quote) (valid : list response) : result (dict quote) :=
  match valid with
  | [] => Ok prices
  | r :: rest =>
      bind (record_quote pair urls_rev prices r) (fun prices' =>
      record_quotes pair urls_rev prices' rest)
  end.

(** [price] up to the point where [prices] is complete: the quotes that
    survived, by exchange. *)
Definition surviving_quotes (pair : string) : result (dict quote) :=
  bind (format_urls pair URLS) (fun items =>
  let urls := dict_of items in
  let urls_rev := dict_of (map (fun kv => (snd kv, fst kv)) urls) in
  let responses := map get (map snd urls) in
  bind (valid_responses responses) (fun valid =>
  record_quotes pair urls_rev [] valid)).

Definition price (pair : string) : result Q :=
  bind (surviving_quotes pair) (fun prices =>
  if (List.length prices =? 0)%nat then Raise TickerError
  else average (map (fun x => quote_price (snd x)) prices)
               (map (fun x => quote_volume (snd x)) prices)).

End Price.

(** The volume-weighted average price of a set of quotes. *)
Definition vwap (quotes : list quote) : Q :=
  (Qsum (map (fun x => quote_price x * quote_volume x) quotes)
   / Qsum (map quote_volume quotes))%Q.

(** Sample networks used in the examples.  [answers] lists the URLs that
    answer with status 200 and the body they answer with; every other
    request fails or times out. *)
Fixpoint network (answers : list (string * json)) (url : string) : response :=
  match answers with
  | [] => NoResponse
  | (u, body) :: rest =>
      if String.eqb u url then Response 200 url (Some body)
      else network rest url
  end.

Definition coinbase_btc_usd : string :=
  "https://api.exchange.coinbase.com/products/btc-usd/ticker".

Definition bitstamp_btc_usd : string :=
  "https://www.bitstamp.net/api/v2/ticker/btcusd".

Definition two_quotes : list (string * json) :=
  [ (coinbase_btc_usd, JDict [("price", JStr "10"); ("volume", JStr "1")]);
    (bitstamp_btc_usd, JDict [("last", JStr "20"); ("volume", JStr "3")]) ].

Definition one_quote : list (string * json) :=
  [ (coinbase_btc_usd, JDict [("price", JStr "100"); ("volume", JStr "5")]) ].

Definition idle_market : list (string * json) :=
  [ (coinbase_btc_usd, JDict [("price", JStr "100"); ("volume", JStr "0")]) ].

End Ticker.

(** ** More of class Account (megaphone/base.py) *)

Module Account.
Import Py History.

(** [l[a:b]] for integers [a] and [b]: a negative bound counts from the
    end, and both bounds are clamped to the list. *)
Definition clamp_index (n i : Z) : Z :=
  if i <? 0 then Z.max (i + n) 0 else Z.min i n.

Definition slice {A : Type} (l : list A) (a b : Z) : list A :=
  let n := Z.of_nat (List.length l) in
  let lo := clamp_index n a in
  let hi := clamp_index n b in
  firstn (Z.to_nat (hi - lo)) (skipn (Z.to_nat lo) l).

Section Blog.

(** A post of the blog, and [parse_payout(post['total_payout_reward'])],
    which megaphone/helpers.py defines. *)
Variable post : Type.
Variable total_payout : post -> Q.

(** [number_of_winning_posts]: the named tuple [(winners, blog_posts)]. *)
Definition number_of_winning_posts (blog : list post)
    (skip : Z) (payout_requirement : Q) (max_posts : Z) : Z * Z :=
  let blog := slice blog skip (max_posts + skip) in
  let winning_posts :=
    fold_left
      (fun winning_posts p =>
         if Qle_bool payout_requirement (total_payout p)
         then winning_posts + 1 else winning_posts)
      blog 0 in
  (winning_posts, Z.of_nat (List.length blog)).

(** [avg_payout_per_post]. *)
Definition avg_payout_per_post (blog : list post) (skip max_posts : Z) : Q :=
  let blog := slice blog skip (max_posts + skip) in
  let total_payout :=
    fold_left (fun total p => (total + total_payout p)%Q) blog 0%Q in
  if (List.length blog =? 0)%nat then 0%Q
  else (total_payout / inject_Z (Z.of_nat (List.length blog)))%Q.

End Blog.

(** The batches a replay from [start] asks for, in order: the first [n]
    of them, as pairs of index and limit. *)
Definition batch_requests (start : Z) (first n : nat) : list (Z * Z) :=
  map (fun k => (start + batch_size * (Z.of_nat k + 1),
                 if (k =? 0)%nat then batch_size else batch_size - 1))
      (seq first n).

(** The integers [lo], [lo + 1], ..., [hi - 1]. *)
Definition indices (lo hi : Z) : list Z :=
  map (fun i => lo + Z.of_nat i) (seq 0 (Z.to_nat (hi - lo))).

Section Voted.

(** The ledger connection, and [vote['permlink']] read from the body of a
    vote operation. *)
Variable get_account_history : Z -> Z -> list item.
Variable permlink : string -> string.

(** [check_if_already_voted(post)], with the generator of [history2] driven
    for at most [fuel] batches: [Some true] as soon as a yielded vote has
    the permlink of the post, [Some false] when the generator returns
    without one, [None] while the loop is still waiting for a batch. *)
Definition check_if_already_voted (post_permlink : string) (fuel : nat)
  : option bool :=
  let k := history2 get_account_history (FilterStr "vote") 1000 fuel in
  if existsb (fun v => String.eqb (permlink (op v)) post_permlink) (yielded k)
  then Some true
  else if finished k then Some false else None.

End Voted.

(** What [filter_by_date] can raise: a timestamp that does not parse, and
    [item_time] read before any item gave it a value. *)
Inductive date_error : Type :=
| BadTimestamp
| UnboundLocalError.

Section Dates.

(** [parser.parse(s + "UTC").timestamp()]; [None] when [s] does not
    parse.  [now] is [time.time()]. *)
Variable timestamp : string -> option Q.
Variable now : Q.

(** An item: a dictionary whose ['time'] or ['timestamp'] entry is text. *)
Definition dated : Type := Ticker.dict string.

Definition lookup (item : dated) (key : string) : option string :=
  match Ticker.dict_get item key with
  | Ok v => Some v
  | Raise _ => None
  end.

(** The [if 'time' in item: ... elif 'timestamp' in item: ...] block:
    [item_time] after it. *)
Definition item_time_of (item : dated) (item_time : option string)
  : option string :=
  if Ticker.in_list "time" (map fst item) then lookup item "time"
  else if Ticker.in_list "timestamp" (map fst item)
       then lookup item "timestamp"
       else item_time.

(** [end_time > timestamp > start_time]. *)
Definition in_open_interval (start_time end_time ts : Q) : bool :=
  if Qlt_le_dec ts end_time
  then if Qlt_le_dec start_time ts then true else false
  else false.

(** The loop of [filter_by_date]; [item_time] is the variable of that name,
    which keeps its value from one item to the next. *)
Fixpoint filter_items (start_time end_time : Q) (item_time : option string)
    (items : list dated) : date_error + list dated :=
  match items with
  | [] => inr []
  | item :: rest =>
      match item_time_of item item_time with
      | None => inl UnboundLocalError
      | Some t =>
          match timestamp t with
          | None => inl BadTimestamp
          | Some ts =>
              match filter_items start_time end_time (Some t) rest with
              | inl e => inl e
              | inr filtered_items =>
                  inr (if in_open_interval start_time end_time ts
                       then item :: filtered_items
                       else filtered_items)
              end
          end
      end
  end.

(** The end of the interval: an [end_time] that is [None] or empty stands
    for now. *)
Definition end_timestamp (end_time : option string) : option Q :=
  match end_time with
  | None => Some now
  | Some EmptyString => Some now
  | Some e => timestamp e
  end.

(** [filter_by_date(items, start_time, end_time)]. *)
Definition filter_by_date (items : list dated) (start_time : string)
    (end_time : option string) : date_error + list dated :=
  match timestamp start_time with
  | None => inl BadTimestamp
  | Some s =>
      match end_timestamp end_time with
      | None => inl BadTimestamp
      | Some e => filter_items s e None items
      end
  end.

(** The time an item is judged by when it carries one of the two keys. *)
Definition own_time (item : dated) : option Q :=
  match item_time_of item None with
  | Some t => timestamp t
  | None => None
  end.

End Dates.

(** Sample items used in the examples; the timestamps are read as plain
    numbers of seconds. *)
Definition sample_items : list dated :=
  [ [("time", "10")]; [("timestamp", "20")]; [("time", "30")] ]%string.

End Account.

(** ** More of class Post (megaphone/base.py) *)

Module Post.

(** [calc_reward_pct], from the value of [time_elapsed()]. *)
Definition calc_reward_pct (time_elapsed : Q) : Q :=
  let reward := (time_elapsed / 1800 * 100)%Q in
  if Qlt_le_dec 100 reward then 100%Q else reward.

(** An entry of [active_votes]; [vote_time_elapsed] is the key
    ['time_elapsed'] that [get_votes] sets. *)
Record vote : Type := mkVote {
  voter : string;
  vote_time : string;
  vote_time_elapsed : option Z
}.

(** What [get_votes] returns: one vote, or the list of votes. *)
Inductive votes : Type :=
| OneVote (v : vote)
| AllVotes (l : list vote).

Section Votes.

(** [time_diff], which megaphone/helpers.py defines. *)
Variable time_diff : string -> string -> Q.

(** The vote once [vote['time_elapsed']] is set. *)
Definition stamp (created : string) (v : vote) : vote :=
  {| voter := voter v;
     vote_time := vote_time v;
     vote_time_elapsed := Some (Py.int (time_diff created (vote_time v))) |}.

(** Whether [from_account and vote['voter'] == from_account] holds. *)
Definition is_from (from_account : option string) (v : vote) : bool :=
  match from_account with
  | None => false
  | Some EmptyString => false
  | Some a => String.eqb (voter v) a
  end.

(** The loop of [get_votes]; [seen] is the list [votes] so far. *)
Fixpoint get_votes_loop (created : string) (from_account : option string)
    (seen active_votes : list vote) : votes :=
  match active_votes with
  | [] => AllVotes seen
  | v :: rest =>
      let v := stamp created v in
      if is_from from_account v then OneVote v
      else get_votes_loop created from_account (seen ++ [v]) rest
  end.

Definition get_votes (created : string) (active_votes : list vote)
    (from_account : option string) : votes :=
  get_votes_loop created from_account [] active_votes.

End Votes.

End Post.

(** ** More of class Converter (megaphone/base.py) *)

Module ConverterMore.
Import Py Converter.

Local Open Scope Q_scope.

(** [steem_per_mvests], from the two amounts of the global properties,
    [parse_payout(info["total_vesting_fund_steem"])] and
    [parse_payout(info["total_vesting_shares"])]. *)
Definition steem_per_mvests (total_vesting_fund_steem total_vesting_shares : Q)
  : result Q :=
  true_div total_vesting_fund_steem (total_vesting_shares / 1000000).

(** [steem_to_sbd] and [sbd_to_steem], from the value of
    [sbd_median_price()]. *)
Definition steem_to_sbd (sbd_median_price amount_steem : Q) : Q :=
  sbd_median_price * amount_steem.

Definition sbd_to_steem (sbd_median_price amount_sbd : Q) : result Q :=
  true_div amount_sbd sbd_median_price.

End ConverterMore.

(** ** More of megaphone/ticker.py *)

Module TickerMore.
Import Py Ticker.

Local Open Scope Q_scope.

(** What the division of two [Decimal] values can signal. *)
Inductive decimal_signal : Type :=
| DivisionByZero
| InvalidOperation.

(** [Ticker.calc_spread(bid, ask)], from the values of [Decimal(bid)] and
    [Decimal(ask)], read as exact rationals. *)
Definition calc_spread (bid ask : Q) : decimal_signal + Q :=
  if Qeq_bool ask 0 then
    if Qeq_bool bid 0 then inl InvalidOperation else inl DivisionByZero
  else inr ((1 - bid / ask) * 100).

(** The URLs that [price] sends a request to, in order: the values of
    [urls]; none when the pair is refused. *)
Definition requested_urls (pair : string) : list string :=
  match format_urls pair URLS with
  | Ok items => map snd (dict_of items)
  | Raise _ => []
  end.

(** A request that failed or timed out, or whose response has another
    status than 200. *)
Definition failed (r : response) : Prop :=
  match r with
  | NoResponse => True
  | Response status_code _ _ => status_code <> 200%Z
  end.

Definition Gold_URL : string :=
  "http://data-asg.goldprice.org/GetData/USD-XAU/1".

Definition GRAM_PER_OZ : Q := 311034768 # 10000000.

Section Gold.

Variable float_of_text : string -> option Q.
Variable get : string -> response.

(** [response.json()[0].split(",")[1]] converted by [float]. *)
Definition second_field (j : json) : result Q :=
  bind (getitem_0 j) (fun first =>
    match first with
    | JStr s =>
        match Str.split ","%char s with
        | _ :: field :: _ => float float_of_text (JStr field)
        | _ => Raise IndexError
        end
    | _ => Raise AttributeError
    end).

Definition price_oz : result Q :=
  match get Gold_URL with
  | Response status_code _ body =>
      if (status_code =? 200)%Z then
        match body with
        | Some j => second_field j
        | None => Raise ValueError
        end
      else Ok 0
  | NoResponse => Ok 0
  end.

Definition price_mg : result Q :=
  bind price_oz (fun oz => Ok (oz / GRAM_PER_OZ / 1000)).

End Gold.

End TickerMore.

(** ** Facts about the account history replay *)

Module HistoryFacts.
Import History.

(** *** Filtering is applied item by item, whatever the node answers *)

Lemma filter_both {A} (f g : A -> bool) (l : list A) :
  List.filter f (List.filter g l) = List.filter (fun x => g x && f x) l.
Proof.
  induction l as [|x l IH]; simpl; [reflexivity|].
  destruct (g x); simpl; [destruct (f x)|]; now rewrite IH.
Qed.

Lemma emit_matches (filter_by : tag_filter) (it : item) :
  emit filter_by it = List.filter (matches filter_by) [construct_op it].
Proof.
  destruct filter_by; reflexivity.
Qed.

Lemma for_items_matches max_index filter_by batch :
  for_items max_index filter_by batch =
  (List.filter (matches filter_by)
     (fst (for_items max_index FilterNone batch)),
   snd (for_items max_index FilterNone batch)).
Proof.
  induction batch as [|it rest IH]; simpl; [reflexivity|].
  destruct (fst it >=? max_index); simpl; [reflexivity|].
  rewrite IH, emit_matches; simpl.
  now destruct (matches filter_by (construct_op it)).
Qed.

Lemma history_loop_matches rpc max_index filter_by start_index fuel :
  forall i,
    let k := history_loop rpc max_index filter_by start_index fuel i in
    let u := history_loop rpc max_index FilterNone start_index fuel i in
    yielded k = List.filter (matches filter_by) (yielded u)
    /\ fetches k = fetches u /\ finished k = finished u.
Proof.
  induction fuel as [|fuel IH]; intro i; simpl; [now repeat split|].
  rewrite (for_items_matches max_index filter_by); simpl.
  destruct (snd (for_items max_index FilterNone _)); simpl.
  - now repeat split.
  - destruct (IH (i + batch_size)) as (Hy & Hf & Hd).
    rewrite filter_app, Hy, Hf, Hd. now repeat split.
Qed.

Lemma history_matches rpc filter_by start fuel :
  yielded (history rpc filter_by start fuel) =
  List.filter (matches filter_by) (yielded (history rpc FilterNone start fuel)).
Proof.
  unfold history. destruct (virtual_op_count rpc =? 0); simpl; [reflexivity|].
  apply history_loop_matches.
Qed.

(** *** Nothing at or above [max_index] is ever yielded *)

Lemma emit_index filter_by it o :
  In o (emit filter_by it) -> index o = fst it.
Proof.
  intro H. rewrite emit_matches in H. apply filter_In in H.
  destruct H as [[<-|[]] _]. reflexivity.
Qed.

Lemma for_items_below max_index filter_by batch o :
  In o (fst (for_items max_index filter_by batch)) -> index o < max_index.
Proof.
  induction batch as [|it rest IH]; simpl; [tauto|].
  destruct (Z.geb_spec (fst it) max_index) as [Hge|Hlt]; simpl; [tauto|].
  intro H. apply in_app_or in H. destruct H as [H|H]; [|now apply IH].
  apply emit_index in H. lia.
Qed.

Lemma history_loop_below rpc max_index filter_by start_index fuel o :
  forall i,
    In o (yielded (history_loop rpc max_index filter_by start_index fuel i)) ->
    index o < max_index.
Proof.
  induction fuel as [|fuel IH]; intro i; simpl; [tauto|].
  destruct (snd (for_items max_index filter_by _)) eqn:E; simpl; intro H.
  - now apply for_items_below in H.
  - apply in_app_or in H. destruct H as [H|H].
    + now apply for_items_below in H.
    + now apply IH in H.
Qed.

Lemma history_below rpc filter_by start fuel o :
  In o (yielded (history rpc filter_by start fuel)) ->
  index o < virtual_op_count rpc.
Proof.
  unfold history. destruct (virtual_op_count rpc =? 0); simpl; [tauto|].
  apply history_loop_below.
Qed.

(** *** The numbered log *)

Lemma number_from_bounds log : forall k it,
  In it (number_from k log) -> k <= fst it < k + Z.of_nat (List.length log).
Proof.
  induction log as [|e log IH]; intros k it; simpl; [tauto|].
  intros [<-|H]; simpl; [lia|]. apply IH in H. lia.
Qed.

Lemma number_from_ascending log : forall k, ascending (number_from k log).
Proof.
  induction log as [|e log IH]; intro k; simpl; constructor.
  - apply IH.
  - apply Forall_forall. intros it H. apply number_from_bounds in H.
    simpl. lia.
Qed.

Lemma number_from_has log : forall k m,
  k <= m < k + Z.of_nat (List.length log) ->
  exists e, In (m, e) (number_from k log).
Proof.
  induction log as [|e log IH]; intros k m H; simpl in *; [lia|].
  destruct (Z.eq_dec k m) as [->|Hne].
  - exists e. now left.
  - destruct (IH (k + 1) m) as [e' He']; [lia|]. exists e'. now right.
Qed.

Lemma ascending_filter f l : ascending l -> ascending (List.filter f l).
Proof.
  induction 1 as [|x l Hs IH Hx]; simpl; [constructor|].
  destruct (f x); [constructor|]; auto.
  apply Forall_forall. intros y Hy. apply filter_In in Hy.
  rewrite Forall_forall in Hx. now apply Hx.
Qed.

Lemma filter_none {A} (f : A -> bool) (l : list A) :
  (forall x, In x l -> f x = false) -> List.filter f l = [].
Proof.
  induction l as [|x l IH]; simpl; intro H; [reflexivity|].
  rewrite (H x) by now left. apply IH. intros y Hy. apply H. now right.
Qed.

Lemma between_spec lo hi it :
  between lo hi it = true <-> lo <= fst it < hi.
Proof.
  unfold between. rewrite andb_true_iff, Z.leb_le, Z.ltb_lt. tauto.
Qed.

Lemma between_false lo hi it :
  between lo hi it = false <-> ~ (lo <= fst it < hi).
Proof.
  rewrite <- between_spec. now destruct (between lo hi it).
Qed.

Lemma between_split lo mid hi l :
  ascending l -> lo <= mid <= hi ->
  List.filter (between lo mid) l ++ List.filter (between mid hi) l =
  List.filter (between lo hi) l.
Proof.
  intros Hs Hm. induction Hs as [|x l Hs IH Hx]; simpl; [reflexivity|].
  destruct (between lo mid x) eqn:E1, (between mid hi x) eqn:E2,
    (between lo hi x) eqn:E3;
    first [apply between_spec in E1 | apply between_false in E1];
    first [apply between_spec in E2 | apply between_false in E2];
    first [apply between_spec in E3 | apply between_false in E3];
    try lia; simpl; rewrite <- ?IH; try reflexivity.
  rewrite (filter_none (between lo mid) l); [reflexivity|].
  intros y Hy. rewrite Forall_forall in Hx. specialize (Hx y Hy).
  apply between_false. lia.
Qed.

(** Walking an ascending batch without a filter: everything below
    [max_index] is yielded, and the walk returns exactly when the batch
    holds an index at or above [max_index]. *)
Lemma for_items_ascending max_index batch :
  ascending batch ->
  for_items max_index FilterNone batch =
  (map construct_op (List.filter (fun it => fst it <? max_index) batch),
   existsb (fun it => fst it >=? max_index) batch).
Proof.
  induction 1 as [|x l Hs IH Hx]; simpl; [reflexivity|].
  destruct (Z.geb_spec (fst x) max_index) as [Hge|Hlt]; simpl.
  - destruct (Z.ltb_spec (fst x) max_index); [lia|].
    rewrite (filter_none _ l); [reflexivity|].
    intros y Hy. rewrite Forall_forall in Hx. specialize (Hx y Hy).
    apply Z.ltb_ge. lia.
  - destruct (Z.ltb_spec (fst x) max_index); [|lia].
    rewrite IH. reflexivity.
Qed.

(** *** The replay over the numbered log *)

Section Ledger.

Variable log : list entry.

Local Abbreviation N := (Z.of_nat (List.length log)).
Local Abbreviation L := (number_from 0 log).

Lemma ledger_batch i limit :
  0 <= i -> ledger log i limit = List.filter (in_window (i - limit) i) L.
Proof.
  intro Hi. unfold ledger. destruct (Z.ltb_spec i 0); [lia|reflexivity].
Qed.

Lemma in_window_spec lo hi it :
  in_window lo hi it = true <-> lo <= fst it <= hi.
Proof.
  unfold in_window. rewrite andb_true_iff, !Z.leb_le. tauto.
Qed.

Lemma ledger_tail :
  ledger log (-1) 0 = List.filter (in_window (N - 1) (N - 1)) L.
Proof.
  unfold ledger. change (-1 <? 0) with true. cbv iota.
  fold N L. now rewrite Z.sub_0_r.
Qed.

Lemma virtual_op_count_ledger :
  virtual_op_count (ledger log) = Z.max 0 (N - 1).
Proof.
  unfold virtual_op_count. rewrite ledger_tail.
  destruct (List.filter _ L) as [|x r] eqn:E.
  - destruct (Z.le_gt_cases N 0) as [H|H]; [lia|].
    destruct (number_from_has log 0 (N - 1)) as [e He]; [fold N; lia|].
    assert (In (N - 1, e) (List.filter (in_window (N - 1) (N - 1)) L)) as HI.
    { apply filter_In. split; [exact He|]. apply in_window_spec. simpl. lia. }
    rewrite E in HI. destruct HI.
  - assert (In x (List.filter (in_window (N - 1) (N - 1)) L)) as HI
      by (rewrite E; now left).
    apply filter_In in HI. destruct HI as [HL Hw].
    apply in_window_spec in Hw. apply number_from_bounds in HL.
    fold N in HL. lia.
Qed.

(** One batch, walked without a filter. *)
Lemma batch_walk max_index i limit :
  0 <= i ->
  for_items max_index FilterNone (ledger log i limit) =
  (map construct_op
     (List.filter (between (i - limit) (Z.min (i + 1) max_index)) L),
   existsb (fun it => fst it >=? max_index) (ledger log i limit)).
Proof.
  intro Hi. rewrite for_items_ascending.
  - rewrite ledger_batch by exact Hi. rewrite filter_both.
    f_equal. f_equal. apply filter_ext. intro it.
    unfold in_window, between.
    destruct (Z.leb_spec (i - limit) (fst it)),
      (Z.leb_spec (fst it) i), (Z.ltb_spec (fst it) max_index),
      (Z.ltb_spec (fst it) (Z.min (i + 1) max_index)); simpl; lia.
  - rewrite ledger_batch by exact Hi.
    apply ascending_filter, number_from_ascending.
Qed.

Lemma batch_stops max_index i limit :
  0 <= i -> 0 <= max_index < N -> i - limit <= max_index <= i ->
  existsb (fun it => fst it >=? max_index) (ledger log i limit) = true.
Proof.
  intros Hi Hm Hw. apply existsb_exists.
  destruct (number_from_has log 0 max_index) as [e He]; [fold N; lia|].
  exists (max_index, e). split.
  - rewrite ledger_batch by exact Hi. apply filter_In. split; [exact He|].
    apply in_window_spec. simpl. lia.
  - simpl. apply Z.geb_le. lia.
Qed.

Lemma batch_goes_on max_index i limit :
  0 <= i -> i < max_index ->
  existsb (fun it => fst it >=? max_index) (ledger log i limit) = false.
Proof.
  intros Hi Hlt. apply not_true_is_false. intro H.
  apply existsb_exists in H. destruct H as (it & HI & Hge).
  rewrite ledger_batch in HI by exact Hi. apply filter_In in HI.
  destruct HI as [_ Hw]. apply in_window_spec in Hw.
  apply Z.geb_le in Hge. lia.
Qed.

Lemma batch_beyond i limit :
  0 <= i -> N <= i - limit -> ledger log i limit = [].
Proof.
  intros Hi Hlo. rewrite ledger_batch by exact Hi. apply filter_none.
  intros it HI. apply number_from_bounds in HI. fold N in HI.
  apply not_true_is_false. intro Hw. apply in_window_spec in Hw. lia.
Qed.

Lemma history_loop_S rpc max_index filter_by start_index fuel i :
  history_loop rpc max_index filter_by start_index (S fuel) i =
  let limit := batch_limit start_index i in
  let r := for_items max_index filter_by (rpc i limit) in
  if snd r then
    {| yielded := fst r; fetches := [(i, limit)]; finished := true |}
  else
    let k := history_loop rpc max_index filter_by start_index fuel
               (i + batch_size) in
    {| yielded := fst r ++ yielded k;
       fetches := (i, limit) :: fetches k;
       finished := finished k |}.
Proof. reflexivity. Qed.

Lemma batch_lo_next start_index i :
  start_index <= i -> batch_lo start_index (i + batch_size) = i + 1.
Proof.
  intro H. unfold batch_lo, batch_limit, batch_size.
  destruct (Z.eqb_spec (i + 1000) start_index); lia.
Qed.

Lemma batch_lo_range start_index i :
  i - 1000 <= batch_lo start_index i <= i - 999.
Proof.
  unfold batch_lo, batch_limit, batch_size.
  destruct (i =? start_index); lia.
Qed.

(** A replay that has not passed the last index reaches it, and has then
    yielded every item from its position up to, and without, the last. *)
Lemma loop_reaches_last max_index start_index (n : nat) :
  max_index = N - 1 -> 0 <= max_index ->
  forall i, start_index <= i -> 0 <= i ->
    batch_lo start_index i <= max_index ->
    max_index - i < 1000 * Z.of_nat n ->
    forall fuel, (n < fuel)%nat ->
      let k := history_loop (ledger log) max_index FilterNone start_index
                 fuel i in
      yielded k =
        map construct_op
          (List.filter (between (batch_lo start_index i) max_index) L)
      /\ finished k = true.
Proof.
  intros Hmax Hpos. pose proof (eq_refl : batch_size = 1000) as Hbs.
  induction n as [|n IH]; intros i Hs Hi Hlo Hn fuel Hf;
    (destruct fuel as [|fuel]; [lia|]);
    cbv zeta; rewrite history_loop_S; cbv zeta;
    rewrite batch_walk by exact Hi; cbn [fst snd];
    fold (batch_lo start_index i).
  - rewrite batch_stops; [|lia|lia|unfold batch_lo in Hlo; lia].
    cbn [yielded finished]. rewrite Z.min_r by lia. now split.
  - destruct (Z.le_gt_cases max_index i) as [Hle|Hgt].
    + rewrite batch_stops; [|lia|lia|unfold batch_lo in Hlo; lia].
      cbn [yielded finished]. rewrite Z.min_r by lia. now split.
    + rewrite batch_goes_on by lia. cbn [yielded finished].
      destruct (IH (i + batch_size)) with (fuel := fuel) as [Hy Hd];
        try lia.
      { rewrite batch_lo_next by exact Hs. lia. }
      rewrite Hy, Hd, batch_lo_next by exact Hs.
      rewrite Z.min_l by lia. rewrite <- map_app.
      rewrite between_split; [now split| |].
      * apply number_from_ascending.
      * pose proof (batch_lo_range start_index i). lia.
Qed.

(** A replay that starts beyond the log never sees an item. *)
Lemma loop_beyond max_index filter_by start_index fuel :
  forall i, start_index <= i -> 0 <= i -> N <= batch_lo start_index i ->
    let k := history_loop (ledger log) max_index filter_by start_index
               fuel i in
    yielded k = [] /\ finished k = false.
Proof.
  pose proof (eq_refl : batch_size = 1000) as Hbs.
  induction fuel as [|fuel IH]; intros i Hs Hi Hlo; [now split|].
  cbv zeta; rewrite history_loop_S; cbv zeta.
  rewrite batch_beyond; [|exact Hi|exact Hlo]. cbn [for_items fst snd].
  cbn [yielded finished app].
  apply IH; try lia.
  rewrite batch_lo_next by exact Hs.
  pose proof (batch_lo_range start_index i). lia.
Qed.

End Ledger.

Lemma in_range_between log start :
  in_range log start =
  map construct_op
    (List.filter (between start (virtual_op_count (ledger log)))
       (number_from 0 log)).
Proof. reflexivity. Qed.

Lemma between_empty lo hi l :
  (forall it, In it l -> hi <= lo \/ fst it < lo \/ hi <= fst it) ->
  List.filter (between lo hi) l = [].
Proof.
  intro H. apply filter_none. intros it HI. apply between_false.
  specialize (H it HI). lia.
Qed.

(** An unfiltered replay of a numbered log yields, once it has been driven
    far enough, the operations with index in [[start, max_index)], and it
    returns when [start] does not lie beyond the last index. *)
Lemma history_in_range log start :
  0 <= start ->
  exists fuel0, forall fuel, (fuel0 <= fuel)%nat ->
    let k := history (ledger log) FilterNone start fuel in
    yielded k = in_range log start
    /\ (start <= virtual_op_count (ledger log) -> finished k = true).
Proof.
  intro Hstart. rewrite in_range_between. unfold history.
  rewrite virtual_op_count_ledger.
  set (N := Z.of_nat (List.length log)).
  pose proof (eq_refl : batch_size = 1000) as Hbs.
  destruct (Z.eqb_spec (Z.max 0 (N - 1)) 0) as [H0|H0].
  - exists O. intros fuel _. cbn [yielded finished]. split; [|reflexivity].
    rewrite H0. symmetry. rewrite between_empty; [reflexivity|].
    intros it HI. apply number_from_bounds in HI. lia.
  - assert (Z.max 0 (N - 1) = N - 1) as -> by lia.
    destruct (Z.le_gt_cases start (N - 1)) as [Hle|Hgt].
    + exists (S (Z.to_nat (N - 1))). intros fuel Hf. cbn [yielded finished].
      destruct (loop_reaches_last log (N - 1) (start + batch_size)
                  (Z.to_nat (N - 1)) eq_refl ltac:(lia)
                  (start + batch_size) ltac:(lia) ltac:(lia))
        with (fuel := fuel) as [Hy Hd].
      * unfold batch_lo, batch_limit. rewrite Z.eqb_refl. lia.
      * rewrite Z2Nat.id by lia. lia.
      * lia.
      * rewrite Hy, Hd. unfold batch_lo, batch_limit. rewrite Z.eqb_refl.
        replace (start + batch_size - batch_size) with start by lia.
        now split.
    + exists O. intros fuel _. cbn [yielded finished].
      destruct (loop_beyond log (N - 1) FilterNone (start + batch_size) fuel
                  (start + batch_size) ltac:(lia) ltac:(lia)) as [Hy Hd].
      * unfold batch_lo, batch_limit. rewrite Z.eqb_refl. fold N. lia.
      * rewrite Hy. split; [|lia]. rewrite between_empty; [reflexivity|].
        intros it HI. apply number_from_bounds in HI. fold N in HI. lia.
Qed.

Lemma tag_in_spec t tags : tag_in t tags = true <-> In t tags.
Proof.
  unfold tag_in. rewrite existsb_exists. split.
  - intros (x & Hx & He). apply String.eqb_eq in He. now subst.
  - intro H. exists t. split; [exact H|apply String.eqb_refl].
Qed.

(** What [matches] decides: no condition without a filter, equality with
    the tag, membership in the list of tags. *)
Lemma matches_spec filter_by o :
  matches filter_by o = true <->
  match filter_by with
  | FilterNone => True
  | FilterList tags => In (op_type o) tags
  | FilterStr tag => op_type o = tag
  | FilterOther => False
  end.
Proof.
  destruct filter_by; simpl.
  - tauto.
  - apply tag_in_spec.
  - apply String.eqb_eq.
  - split; [discriminate|tauto].
Qed.

(** C5. Over every numbered log and every start, a replay driven far
    enough yields, without a filter, every operation in range, and with a
    filter exactly the operations in range that match it (the tag itself, or
    a member of the list of tags); their number is that of a reference
    filter over the unfiltered replay. *)
Theorem history_applies_filter log filter_by start :
  0 <= start ->
  exists fuel0, forall fuel, (fuel0 <= fuel)%nat ->
    let all := yielded (history (ledger log) FilterNone start fuel) in
    let got := yielded (history (ledger log) filter_by start fuel) in
    all = in_range log start
    /\ got = List.filter (matches filter_by) (in_range log start)
    /\ (forall o, In o got <->
                  In o (in_range log start) /\
                  match filter_by with
                  | FilterNone => True
                  | FilterList tags => In (op_type o) tags
                  | FilterStr tag => op_type o = tag
                  | FilterOther => False
                  end)
    /\ List.length got = List.length (List.filter (matches filter_by) all).
Proof.
  intro Hstart. destruct (history_in_range log start Hstart) as [fuel0 H].
  exists fuel0. intros fuel Hf all got.
  destruct (H fuel Hf) as [Hall _]. fold all in Hall.
  assert (got = List.filter (matches filter_by) all) as Hgot
    by apply history_matches.
  split; [exact Hall|]. split; [congruence|]. split; [|congruence].
  intro o. rewrite Hgot, Hall, filter_In, matches_spec. tauto.
Qed.

Lemma history_applies_filter_witness :
  exists fuel0, forall fuel, (fuel0 <= fuel)%nat ->
    let all := yielded (history (ledger sample_log) FilterNone 1 fuel) in
    let got :=
      yielded (history (ledger sample_log) (FilterStr "vote") 1 fuel) in
    all = in_range sample_log 1
    /\ got = List.filter (matches (FilterStr "vote")) (in_range sample_log 1)
    /\ (forall o, In o got <->
                  In o (in_range sample_log 1) /\ op_type o = "vote"%string)
    /\ List.length got =
       List.length (List.filter (matches (FilterStr "vote")) all).
Proof.
  apply (history_applies_filter sample_log (FilterStr "vote") 1). lia.
Defined.

(** C4. [history2] yields what [history] yields from
    [max(0, virtual_op_count - take)], with the same filter, at every point
    of the replay. *)
Theorem history2_is_history_from_tail rpc filter_by take fuel :
  yielded (history2 rpc filter_by take fuel) =
    replayRecent_spec rpc filter_by take fuel
  /\ finished (history2 rpc filter_by take fuel) =
     finished (history rpc filter_by
                 (Z.max 0 (virtual_op_count rpc - take)) fuel).
Proof.
  unfold history2, replayRecent_spec. cbn [yielded finished].
  destruct (Z.ltb_spec (virtual_op_count rpc - take) 0).
  - rewrite Z.max_l by lia. now split.
  - rewrite Z.max_r by lia. now split.
Qed.

(** C6. When the count check returns 0, [history] returns at once: nothing
    is yielded, the only remote call is the count check, and the generator
    has finished; the model has no other outcome, so nothing is raised. *)
Theorem history_of_empty_account rpc filter_by start fuel :
  virtual_op_count rpc = 0 ->
  history rpc filter_by start fuel =
  {| yielded := []; fetches := [(-1, 0)]; finished := true |}.
Proof.
  intro H. unfold history. now rewrite H.
Qed.

Lemma history_of_empty_account_witness :
  virtual_op_count (ledger []) = 0
  /\ history (ledger []) (FilterList ["vote"%string]) 0 3 =
     {| yielded := []; fetches := [(-1, 0)]; finished := true |}.
Proof.
  split; [reflexivity|].
  apply (history_of_empty_account (ledger []) (FilterList ["vote"%string]) 0 3).
  reflexivity.
Defined.

(** C10. For a log that holds a single operation (its index is 0),
    [virtual_op_count] returns 0 and [history] yields nothing, with the
    count check as its only remote call: the same run as over the empty
    log. *)
Theorem single_operation_looks_empty e filter_by start fuel :
  ledger [e] (-1) 0 = [(0, e)]
  /\ virtual_op_count (ledger [e]) = 0
  /\ history (ledger [e]) filter_by start fuel =
     {| yielded := []; fetches := [(-1, 0)]; finished := true |}
  /\ history (ledger [e]) filter_by start fuel =
     history (ledger []) filter_by start fuel.
Proof.
  repeat split; reflexivity.
Qed.

(** C1. The operation with the last index of a log is never yielded,
    whatever the start, the filter and the length of the replay.  Over the
    log of two operations (indices 0 and 1) the count check returns 1, and
    the replay from 0 yields the operation with index 0 only and returns. *)
Theorem history_stops_before_last_operation :
  (forall log filter_by start fuel,
     ~ In (Z.of_nat (List.length log) - 1)
          (map index (yielded (history (ledger log) filter_by start fuel))))
  /\ List.length two_ops = 2%nat
  /\ virtual_op_count (ledger two_ops) = 1
  /\ (forall fuel,
        let k := history (ledger two_ops) FilterNone 0 (S fuel) in
        map index (yielded k) = [0] /\ finished k = true)
  /\ map index (yielded (history (ledger two_ops) FilterNone 0 1)) <> [0; 1].
Proof.
  split; [|repeat split; discriminate].
  intros log filter_by start fuel H.
  destruct log as [|e log]; [exact H|].
  apply in_map_iff in H. destruct H as (o & Ho & HI).
  apply history_below in HI. rewrite virtual_op_count_ledger in HI.
  cbn [List.length] in *. lia.
Qed.

End HistoryFacts.

(** ** Facts about the reward arithmetic *)

Module ConverterFacts.
Import Py Converter.

Local Open Scope Q_scope.

Lemma true_div_defined a b : ~ b == 0 -> true_div a b = Ok (a / b).
Proof.
  intro H. unfold true_div. destruct (Qeq_bool b 0) eqn:E; [|reflexivity].
  apply Qeq_bool_eq in E. contradiction.
Qed.

(** [int] rounds toward zero: down on the non-negative side, up on the
    other. *)
Lemma int_nonneg x : 0 <= x -> int x = Qfloor x.
Proof.
  destruct x as [n d]. unfold Qle, int, Qfloor. simpl. intro H.
  apply Z.quot_div_nonneg; lia.
Qed.

Lemma int_nonpos x : x <= 0 -> int x = Qceiling x.
Proof.
  destruct x as [n d]. unfold Qle, int, Qceiling, Qfloor. simpl. intro H.
  replace n with (- - n)%Z at 1 by lia.
  rewrite Z.quot_opp_l by lia. f_equal. apply Z.quot_div_nonneg; lia.
Qed.

Lemma content_constant_positive : 0 < 2 * CONTENT_CONSTANT.
Proof. reflexivity. Qed.

Lemma weight_defined r :
  0 <= r ->
  rshares_2_weight r =
  Ok (inject_Z (2 ^ 64 - 1) * r / (2 * CONTENT_CONSTANT + r)).
Proof.
  intro H. unfold rshares_2_weight. apply true_div_defined.
  pose proof content_constant_positive. lra.
Qed.

Lemma div_le_cross a b c d :
  0 < b -> 0 < d -> a * d <= c * b -> a / b <= c / d.
Proof.
  intros Hb Hd H. apply Qle_shift_div_r; [exact Hb|].
  setoid_replace (c / d * b) with (c * b / d) by (field; lra).
  apply Qle_shift_div_l; [exact Hd|exact H].
Qed.

(** C9. With a fixed non-zero [steem_per_mvests], [sp_to_vests] is defined
    and undoes [vests_to_power], and [vests_to_power] undoes [sp_to_vests],
    in exact arithmetic. *)
Theorem vests_power_inverse steem_per_mvests sp v :
  ~ steem_per_mvests == 0 ->
  (exists vests,
     sp_to_vests steem_per_mvests sp = Ok vests
     /\ vests_to_power steem_per_mvests vests == sp)
  /\ (exists vests,
        sp_to_vests steem_per_mvests (vests_to_power steem_per_mvests v)
          = Ok vests
        /\ vests == v).
Proof.
  intro H. unfold sp_to_vests. split; eexists;
    (split; [apply true_div_defined; exact H|]);
    unfold vests_to_power; field; exact H.
Qed.

Lemma vests_power_inverse_witness :
  (exists vests,
     sp_to_vests 500 3 = Ok vests /\ vests_to_power 500 vests == 3)
  /\ (exists vests,
        sp_to_vests 500 (vests_to_power 500 7) = Ok vests /\ vests == 7).
Proof.
  apply (vests_power_inverse 500 3 7). discriminate.
Defined.

(** C2, as the code has it.  With a non-zero [steem_per_mvests],
    [sp_to_rshares] returns; the vesting shares are [sp_to_vests(sp) * 1e6]
    rounded toward zero; [power] and [rshares] are the exact quotients of
    the formula, with no truncation:
    [power * 2000000 = voting_power * vote_pct + 2000000] and
    [rshares * 10000 = power * vesting_shares]. *)
Theorem sp_to_rshares_exact steem_per_mvests sp voting_power vote_pct :
  ~ steem_per_mvests == 0 ->
  let scaled := sp * 1000000 / steem_per_mvests * 1000000 in
  let vesting_shares := int scaled in
  let power := voting_power * vote_pct / 10000 / 200 + 1 in
  exists rshares,
    sp_to_rshares steem_per_mvests sp voting_power vote_pct = Ok rshares
    /\ (0 <= scaled -> vesting_shares = Qfloor scaled)
    /\ (scaled <= 0 -> vesting_shares = Qceiling scaled)
    /\ power * 2000000 == voting_power * vote_pct + 2000000
    /\ rshares * 10000 == power * inject_Z vesting_shares.
Proof.
  intros H scaled vesting_shares power.
  unfold sp_to_rshares, sp_to_vests. rewrite (true_div_defined _ _ H).
  cbn [bind]. eexists. split; [reflexivity|].
  split; [apply int_nonneg|]. split; [apply int_nonpos|].
  fold scaled vesting_shares power. split; unfold power; field.
Qed.

Lemma sp_to_rshares_exact_witness :
  exists rshares,
    sp_to_rshares 512 (1 # 512) 9999 10000 = Ok rshares
    /\ (0 <= (1 # 512) * 1000000 / 512 * 1000000 ->
        int ((1 # 512) * 1000000 / 512 * 1000000) =
        Qfloor ((1 # 512) * 1000000 / 512 * 1000000))
    /\ ((1 # 512) * 1000000 / 512 * 1000000 <= 0 ->
        int ((1 # 512) * 1000000 / 512 * 1000000) =
        Qceiling ((1 # 512) * 1000000 / 512 * 1000000))
    /\ (9999 * 10000 / 10000 / 200 + 1) * 2000000 ==
       9999 * 10000 + 2000000
    /\ rshares * 10000 ==
       (9999 * 10000 / 10000 / 200 + 1) *
       inject_Z (int ((1 # 512) * 1000000 / 512 * 1000000)).
Proof.
  apply (sp_to_rshares_exact 512 (1 # 512) 9999 10000). discriminate.
Defined.

(** C2, as the claim has it, fails: with [steem_per_mvests = 512],
    [sp = 1/512] and the default voting power and percentage, the code
    returns 194549547/10000 (19454.9547), where the truncating chain gives
    19454. *)
Lemma sp_to_rshares_keeps_fraction :
  ~ (forall steem_per_mvests sp voting_power vote_pct,
       ~ steem_per_mvests == 0 ->
       exists z,
         powerToRshares_truncating steem_per_mvests sp voting_power vote_pct
           = Ok z
         /\ same_outcome
              (sp_to_rshares steem_per_mvests sp
                 (inject_Z voting_power) (inject_Z vote_pct))
              (Ok (inject_Z z))).
Proof.
  intro H.
  destruct (H 512 (1 # 512) 10000%Z 10000%Z ltac:(discriminate))
    as (z & Hz & Hsame).
  vm_compute in Hz. injection Hz as <-.
  vm_compute in Hsame. discriminate.
Qed.

(** C3, as the code has it.  For [0 <= r1 <= r2] the weights are defined,
    follow the formula, do not decrease, and stay strictly below
    [2^64 - 1]; the weight of 0 is 0. *)
Theorem rshares_2_weight_curve r1 r2 :
  0 <= r1 -> r1 <= r2 ->
  exists w0 w1 w2,
    rshares_2_weight 0 = Ok w0 /\ w0 == 0
    /\ rshares_2_weight r1 = Ok w1
    /\ rshares_2_weight r2 = Ok w2
    /\ w1 == inject_Z (2 ^ 64 - 1) * r1 / (2 * 2000000000000 + r1)
    /\ w1 <= w2
    /\ w2 < inject_Z (2 ^ 64 - 1).
Proof.
  intros H1 H12. pose proof content_constant_positive as HK.
  do 3 eexists.
  split; [apply weight_defined; lra|]. split; [reflexivity|].
  split; [apply weight_defined; exact H1|].
  split; [apply weight_defined; lra|].
  split; [reflexivity|]. split.
  - apply div_le_cross; try lra.
    change (inject_Z (2 ^ 64 - 1)) with 18446744073709551615.
    change CONTENT_CONSTANT with 2000000000000. lra.
  - apply Qlt_shift_div_r; [lra|].
    change (inject_Z (2 ^ 64 - 1)) with 18446744073709551615.
    change CONTENT_CONSTANT with 2000000000000. lra.
Qed.

Lemma rshares_2_weight_curve_witness :
  exists w0 w1 w2,
    rshares_2_weight 0 = Ok w0 /\ w0 == 0
    /\ rshares_2_weight 1000 = Ok w1
    /\ rshares_2_weight 5000000000000 = Ok w2
    /\ w1 == inject_Z (2 ^ 64 - 1) * 1000 / (2 * 2000000000000 + 1000)
    /\ w1 <= w2
    /\ w2 < inject_Z (2 ^ 64 - 1).
Proof.
  apply (rshares_2_weight_curve 1000 5000000000000); discriminate.
Defined.

(** C3, as the claim has it, fails for negative rshares (a down-vote):
    at [rshares = -8000000000000] the weight is twice [2^64 - 1]. *)
Lemma rshares_2_weight_exceeds_max :
  ~ (forall rshares, exists w,
       rshares_2_weight rshares = Ok w /\ w < inject_Z (2 ^ 64 - 1)).
Proof.
  intro H. destruct (H (-8000000000000)) as (w & Hw & Hlt).
  vm_compute in Hw. injection Hw as <-.
  vm_compute in Hlt. discriminate.
Qed.

End ConverterFacts.

(** ** Facts about Python text *)

Module StrFacts.
Import Str.

Lemma chars_text l : chars (text l) = l.
Proof. apply list_ascii_of_string_of_list_ascii. Qed.

Lemma find_char c s : find [c] s = true <-> In c s.
Proof.
  induction s as [|b s IH]; simpl.
  - split; [discriminate|tauto].
  - rewrite andb_true_r, orb_true_iff, IH, Ascii.eqb_eq.
    split; intros [H|H]; auto.
Qed.

Lemma starts_with_app p s :
  starts_with p s = true -> s = p ++ skipn (List.length p) s.
Proof.
  revert s. induction p as [|a p IH]; intros s H; [reflexivity|].
  destruct s as [|b s]; [discriminate|]. simpl in H.
  apply andb_true_iff in H. destruct H as [Hab Hp].
  apply Ascii.eqb_eq in Hab. subst b. simpl. f_equal. now apply IH.
Qed.

(** A character that does not occur in [old] survives the replacement. *)
Lemma replace_chars_keeps c old new fuel :
  old <> [] -> ~ In c old ->
  forall s, (List.length s <= fuel)%nat -> In c s ->
    In c (replace_chars fuel old new s).
Proof.
  intros Hold Hc. induction fuel as [|fuel IH]; intros s Hlen HI.
  - destruct s; [destruct HI|simpl in Hlen; lia].
  - destruct s as [|b s]; [destruct HI|]. cbn [replace_chars].
    destruct (starts_with old (b :: s)) eqn:E.
    + apply in_or_app. right. apply IH.
      * rewrite length_skipn. destruct old; [congruence|].
        simpl in *. lia.
      * apply starts_with_app in E. rewrite E in HI.
        apply in_app_or in HI. destruct HI; [contradiction|assumption].
    + destruct HI as [->|HI]; [now left|]. right. apply IH; [|exact HI].
      simpl in Hlen. lia.
Qed.

Lemma split_chars_nonempty sep s : split_chars sep s <> [].
Proof.
  destruct s as [|c s]; simpl; [discriminate|].
  destruct (Ascii.eqb c sep); [discriminate|].
  destruct (split_chars sep s); discriminate.
Qed.

(** A text that holds the separator splits into two parts at least. *)
Lemma split_chars_two sep s :
  In sep s -> exists p0 p1 ps, split_chars sep s = p0 :: p1 :: ps.
Proof.
  induction s as [|c s IH]; intro H; [destruct H|]. simpl.
  destruct (Ascii.eqb c sep) eqn:E.
  - pose proof (split_chars_nonempty sep s).
    destruct (split_chars sep s) as [|p ps]; [congruence|].
    now exists [], p, ps.
  - destruct H as [->|H]; [rewrite Ascii.eqb_refl in E; discriminate|].
    destruct (IH H) as (p0 & p1 & ps & ->). now exists (c :: p0), p1, ps.
Qed.

Lemma contains_slash s : contains "/" s = true <-> In "/"%char (chars s).
Proof. apply find_char. Qed.

Lemma replace_keeps_slash new s :
  In "/"%char (chars s) -> In "/"%char (chars (replace "usd" new s)).
Proof.
  intro H. unfold replace. cbn [chars list_ascii_of_string].
  rewrite chars_text. apply replace_chars_keeps; auto.
  - discriminate.
  - simpl. intros [E|[E|[E|[]]]]; discriminate.
Qed.

Lemma upper_keeps_slash s :
  In "/"%char (chars s) -> In "/"%char (chars (upper s)).
Proof.
  intro H. unfold upper. rewrite chars_text.
  change "/"%char with (upper_char "/"). now apply in_map.
Qed.

Lemma split_two s :
  In "/"%char (chars s) -> exists p0 p1 ps, split "/" s = p0 :: p1 :: ps.
Proof.
  intro H. destruct (split_chars_two _ _ H) as (p0 & p1 & ps & E).
  unfold split. rewrite E. now exists (text p0), (text p1), (map text ps).
Qed.

End StrFacts.

(** ** Facts about the ticker *)

Module TickerFacts.
Import Py Str StrFacts Ticker.

Local Open Scope string_scope.

Lemma in_list_spec x l : in_list x l = true <-> In x l.
Proof.
  unfold in_list. rewrite existsb_exists. split.
  - intros (y & Hy & E). apply String.eqb_eq in E. now subst.
  - intro H. exists x. split; [exact H|apply String.eqb_refl].
Qed.

Lemma format_two sep s :
  In "/"%char (chars s) ->
  exists symbol, format_1_0 sep (split "/" s) = Ok symbol.
Proof.
  intro H. destruct (split_two s H) as (p0 & p1 & ps & ->).
  simpl. eauto.
Qed.

(** With a known exchange and a pair that holds a slash, a symbol comes
    back. *)
Lemma get_ticker_symbol_returns pair exchange :
  contains "/" pair = true -> In exchange (map fst URLS) ->
  exists symbol, get_ticker_symbol pair exchange = Ok symbol.
Proof.
  intros Hs Hx. unfold get_ticker_symbol. rewrite Hs.
  assert (In "/"%char (chars (upper (replace "usd" "usdt" pair)))) as Hup
    by (apply upper_keeps_slash, replace_keeps_slash, contains_slash, Hs).
  simpl in Hx.
  destruct Hx as [<-|[<-|[<-|[<-|[<-|[<-|[]]]]]]]; cbn -[replace upper split];
    eauto using format_two.
Qed.

(** C8. [get_ticker_symbol] raises [TickerError] exactly when the pair has
    no slash or the exchange is not one of [URLS]; otherwise it returns a
    symbol and raises nothing.  For ["btc/usd"] it gives ["USDT-BTC"] on
    bittrex and ["USDT_BTC"] on poloniex, and ["abc"] on coinbase raises
    [TickerError]. *)
Theorem get_ticker_symbol_errors pair exchange :
  (get_ticker_symbol pair exchange = Raise TickerError <->
   contains "/" pair = false \/ ~ In exchange (map fst URLS))
  /\ (forall e, get_ticker_symbol pair exchange = Raise e -> e = TickerError)
  /\ get_ticker_symbol "btc/usd" "bittrex" = Ok "USDT-BTC"
  /\ get_ticker_symbol "btc/usd" "poloniex" = Ok "USDT_BTC"
  /\ get_ticker_symbol "abc" "coinbase" = Raise TickerError.
Proof.
  assert (contains "/" pair = false \/ ~ In exchange (map fst URLS) ->
          get_ticker_symbol pair exchange = Raise TickerError) as Hraise.
  { intros [H|H]; unfold get_ticker_symbol.
    - rewrite H. now destruct (in_list exchange (map fst URLS)).
    - destruct (in_list exchange (map fst URLS)) eqn:E; [|reflexivity].
      apply in_list_spec in E. contradiction. }
  assert (forall e, get_ticker_symbol pair exchange = Raise e ->
                    contains "/" pair = false
                    \/ ~ In exchange (map fst URLS)) as Hwhy.
  { intros e He. destruct (contains "/" pair) eqn:Hs; [|now left]. right.
    intro Hx. destruct (get_ticker_symbol_returns pair exchange Hs Hx) as [s E].
    congruence. }
  split; [split; [apply Hwhy|exact Hraise]|].
  split; [|repeat split; reflexivity].
  intros e He. pose proof (Hraise (Hwhy e He)). congruence.
Qed.

Lemma weighted_terms (l : dict quote) :
  map (fun aw => (fst aw * snd aw)%Q)
    (combine (map (fun x => quote_price (snd x)) l)
             (map (fun x => quote_volume (snd x)) l)) =
  map (fun x => (quote_price x * quote_volume x)%Q) (map snd l).
Proof.
  induction l as [|x l IH]; simpl; [reflexivity|]. now rewrite IH.
Qed.

(** What [price] does once the surviving quotes are known. *)
Lemma price_of_quotes float_of_text get pair prices :
  surviving_quotes float_of_text get pair = Ok prices ->
  let volumes := Qsum (map quote_volume (map snd prices)) in
  (price float_of_text get pair = Raise TickerError <-> prices = [])
  /\ (prices <> [] -> volumes == 0 ->
      price float_of_text get pair = Raise ZeroDivisionError)
  /\ (prices <> [] -> ~ volumes == 0 ->
      price float_of_text get pair = Ok (vwap (map snd prices))).
Proof.
  intros Hs volumes. unfold price. rewrite Hs. cbn [bind].
  destruct prices as [|x l]; [repeat split; congruence|].
  change (List.length (x :: l) =? 0)%nat with false. cbv iota.
  unfold average. rewrite weighted_terms, <- (map_map snd quote_volume).
  fold volumes. fold (vwap (map snd (x :: l))).
  destruct (Qeq_bool volumes 0) eqn:E.
  - apply Qeq_bool_eq in E. repeat split; try congruence; contradiction.
  - apply Qeq_bool_neq in E. repeat split; try congruence; contradiction.
Qed.

(** C7, as the code has it.  When the extraction raises nothing, [price]
    raises [TickerError] exactly when no quote survived; otherwise it
    returns the volume-weighted average of the surviving quotes, unless
    their volumes sum to zero, in which case [ZeroDivisionError] is raised.
    Quotes of 10 at volume 1 and 20 at volume 3 give 17.5; one quote of 100
    at volume 5 with the five other requests failing gives 100; with all six
    failing [TickerError] is raised. *)
Theorem price_is_vwap float_of_text get pair prices :
  surviving_quotes float_of_text get pair = Ok prices ->
  let volumes := Qsum (map quote_volume (map snd prices)) in
  (price float_of_text get pair = Raise TickerError <-> prices = [])
  /\ (prices <> [] -> volumes == 0 ->
      price float_of_text get pair = Raise ZeroDivisionError)
  /\ (prices <> [] -> ~ volumes == 0 ->
      price float_of_text get pair = Ok (vwap (map snd prices)))
  /\ (exists p, price decimal (network two_quotes) "btc/usd" = Ok p
                /\ p == 17.5)
  /\ (exists p, price decimal (network one_quote) "btc/usd" = Ok p
                /\ p == 100)
  /\ price decimal (network []) "btc/usd" = Raise TickerError.
Proof.
  intros Hs volumes.
  destruct (price_of_quotes float_of_text get pair prices Hs) as (H1 & H2 & H3).
  split; [exact H1|]. split; [exact H2|]. split; [exact H3|].
  split; [eexists; split; [vm_compute; reflexivity|reflexivity]|].
  split; [eexists; split; [vm_compute; reflexivity|reflexivity]|].
  vm_compute. reflexivity.
Qed.

Lemma price_is_vwap_witness :
  let prices :=
    [ ("bitstamp", {| quote_price := 20; quote_volume := 3 |});
      ("coinbase", {| quote_price := 10; quote_volume := 1 |}) ] in
  let volumes := Qsum (map quote_volume (map snd prices)) in
  (price decimal (network two_quotes) "btc/usd" = Raise TickerError
   <-> prices = [])
  /\ (prices <> [] -> volumes == 0 ->
      price decimal (network two_quotes) "btc/usd" = Raise ZeroDivisionError)
  /\ (prices <> [] -> ~ volumes == 0 ->
      price decimal (network two_quotes) "btc/usd"
      = Ok (vwap (map snd prices)))
  /\ (exists p, price decimal (network two_quotes) "btc/usd" = Ok p
                /\ p == 17.5)
  /\ (exists p, price decimal (network one_quote) "btc/usd" = Ok p
                /\ p == 100)
  /\ price decimal (network []) "btc/usd" = Raise TickerError.
Proof.
  apply (price_is_vwap decimal (network two_quotes) "btc/usd").
  vm_compute. reflexivity.
Defined.

(** C7, as the claim has it, fails: when the only surviving quote has a
    volume of 0, a quote survived and yet no average is returned;
    [np.average] raises [ZeroDivisionError]. *)
Lemma price_of_idle_market :
  ~ (forall get pair prices,
       surviving_quotes decimal get pair = Ok prices ->
       (price decimal get pair = Raise TickerError <-> prices = [])
       /\ (prices <> [] -> exists p, price decimal get pair = Ok p)).
Proof.
  intro H.
  destruct (H (network idle_market) "btc/usd"
              [("coinbase", {| quote_price := 100; quote_volume := 0 |})])
    as [_ Hp]; [vm_compute; reflexivity|].
  destruct Hp as [p Hp]; [discriminate|].
  vm_compute in Hp. discriminate.
Qed.

End TickerFacts.

(** ** More facts about the account history replay *)

Module ReplayFacts.
Import Py History HistoryFacts Account.

(** X1. The filter changes neither the remote calls of a replay nor the
    point at which it returns: both are those of the unfiltered replay,
    whatever the node answers. *)
Theorem filter_leaves_fetches rpc filter_by start fuel :
  fetches (history rpc filter_by start fuel) =
    fetches (history rpc FilterNone start fuel)
  /\ finished (history rpc filter_by start fuel) =
     finished (history rpc FilterNone start fuel).
Proof.
  unfold history. destruct (virtual_op_count rpc =? 0); [now split|].
  cbn [fetches finished].
  destruct (history_loop_matches rpc (virtual_op_count rpc) filter_by
              (start + batch_size) fuel (start + batch_size)) as (_ & Hf & Hd).
  now rewrite Hf, Hd.
Qed.

(** X2. Whatever the node answers, every operation a replay yields has an
    index below the count check's value and passes the filter; the same
    holds for [history2]. *)
Theorem yielded_below_count rpc filter_by start take fuel :
  Forall (fun o => index o < virtual_op_count rpc
                   /\ matches filter_by o = true)
         (yielded (history rpc filter_by start fuel))
  /\ Forall (fun o => index o < virtual_op_count rpc
                      /\ matches filter_by o = true)
            (yielded (history2 rpc filter_by take fuel)).
Proof.
  assert (forall s, Forall (fun o => index o < virtual_op_count rpc
                                     /\ matches filter_by o = true)
                      (yielded (history rpc filter_by s fuel))) as H.
  { intro s. apply Forall_forall. intros o Ho. split.
    - now apply history_below in Ho.
    - rewrite history_matches in Ho. now apply filter_In in Ho. }
  split; [apply H|]. unfold history2. cbn [yielded]. apply H.
Qed.

Lemma loop_requests rpc max_index filter_by start fuel :
  forall j,
    exists n, (n <= fuel)%nat
      /\ fetches (history_loop rpc max_index filter_by (start + batch_size)
                    fuel (start + batch_size * (Z.of_nat j + 1)))
         = batch_requests start j n.
Proof.
  induction fuel as [|fuel IH]; intro j; [exists O; now split|].
  rewrite history_loop_S. cbv zeta.
  assert (batch_limit (start + batch_size)
            (start + batch_size * (Z.of_nat j + 1))
          = if (j =? 0)%nat then batch_size else batch_size - 1) as ->.
  { unfold batch_limit, batch_size.
    destruct (Z.eqb_spec (start + 1000 * (Z.of_nat j + 1)) (start + 1000)),
      (Nat.eqb_spec j 0); try reflexivity; lia. }
  destruct (snd (for_items _ _ _)).
  - exists 1%nat. split; [lia|reflexivity].
  - destruct (IH (S j)) as (n & Hn & E). exists (S n). split; [lia|].
    cbn [fetches]. unfold batch_requests in *. cbn [seq map]. f_equal.
    rewrite <- E. do 2 f_equal. lia.
Qed.

(** X3. The remote calls of a replay do not depend on what the batches
    hold: after the count check come the index [start + 1000] with limit
    1000, then [start + 2000], [start + 3000], ... with limit 999 each, one
    call per batch. *)
Theorem fetches_follow_schedule rpc filter_by start fuel :
  exists n, (n <= fuel)%nat
    /\ fetches (history rpc filter_by start fuel)
       = (-1, 0) :: batch_requests start 0 n.
Proof.
  unfold history. destruct (virtual_op_count rpc =? 0).
  - exists O. split; [lia|reflexivity].
  - destruct (loop_requests rpc (virtual_op_count rpc) filter_by start fuel 0)
      as (n & Hn & E).
    exists n. split; [exact Hn|]. cbn [fetches]. f_equal.
    rewrite <- E. reflexivity.
Qed.

(** X4. Over a non-empty log the count check returns the index of the last
    operation, one less than the number of operations. *)
Theorem virtual_op_count_is_last_index e log :
  virtual_op_count (ledger (e :: log)) = Z.of_nat (List.length (e :: log)) - 1.
Proof.
  rewrite virtual_op_count_ledger. cbn [List.length]. lia.
Qed.

Lemma indices_nil lo hi : hi <= lo -> indices lo hi = [].
Proof.
  intro H. unfold indices. now replace (Z.to_nat (hi - lo)) with O by lia.
Qed.

Lemma indices_cons lo hi : lo < hi -> indices lo hi = lo :: indices (lo + 1) hi.
Proof.
  intro H. unfold indices.
  replace (Z.to_nat (hi - lo)) with (S (Z.to_nat (hi - (lo + 1)))) by lia.
  cbn [seq map]. f_equal; [lia|].
  rewrite <- seq_shift, map_map. apply map_ext. intro i. lia.
Qed.

Lemma indices_length lo hi :
  Z.of_nat (List.length (indices lo hi)) = Z.max 0 (hi - lo).
Proof.
  unfold indices. rewrite length_map, length_seq. lia.
Qed.

(** The indices of the items of a numbered log that lie in a range. *)
Lemma number_from_indices log : forall k a b,
  map fst (List.filter (between a b) (number_from k log)) =
  indices (Z.max a k) (Z.min b (k + Z.of_nat (List.length log))).
Proof.
  induction log as [|e log IH]; intros k a b.
  - cbn. symmetry. apply indices_nil. lia.
  - cbn [number_from List.filter List.length].
    destruct (between a b (k, e)) eqn:E.
    + apply between_spec in E. cbn [fst] in E. cbn [map fst].
      rewrite IH, (indices_cons (Z.max a k)) by lia.
      f_equal; [lia|]. f_equal; lia.
    + apply between_false in E. cbn [fst] in E. rewrite IH.
      destruct (Z.lt_ge_cases k a).
      * f_equal; lia.
      * rewrite !indices_nil; [reflexivity|lia|lia].
Qed.

Lemma in_range_indices log start :
  0 <= start ->
  map index (in_range log start) =
  indices start (Z.of_nat (List.length log) - 1).
Proof.
  intro H. rewrite in_range_between, map_map.
  change (fun x => index (construct_op x)) with (@fst Z entry).
  rewrite number_from_indices, virtual_op_count_ledger.
  destruct (Z.le_gt_cases (Z.of_nat (List.length log)) 1).
  - rewrite !indices_nil; [reflexivity|lia|lia].
  - f_equal; lia.
Qed.

(** X5. Over every numbered log, a replay from [start] that is driven far
    enough yields the operations with the indices [start], [start + 1],
    ..., up to the one before the last, each once and in this order,
    however many batches that takes. *)
Theorem history_yields_contiguous log start :
  0 <= start ->
  exists fuel0, forall fuel, (fuel0 <= fuel)%nat ->
    map index (yielded (history (ledger log) FilterNone start fuel)) =
    indices start (Z.of_nat (List.length log) - 1).
Proof.
  intro H. destruct (history_in_range log start H) as [fuel0 Hr].
  exists fuel0. intros fuel Hf. destruct (Hr fuel Hf) as [-> _].
  now apply in_range_indices.
Qed.

Lemma history_yields_contiguous_witness :
  exists fuel0, forall fuel, (fuel0 <= fuel)%nat ->
    map index (yielded (history (ledger sample_log) FilterNone 1 fuel)) =
    indices 1 (Z.of_nat (List.length sample_log) - 1).
Proof.
  apply (history_yields_contiguous sample_log 1). lia.
Defined.

Lemma unfinished_loop_fetches rpc max_index filter_by start_index fuel :
  forall i,
    finished (history_loop rpc max_index filter_by start_index fuel i) = false ->
    List.length
      (fetches (history_loop rpc max_index filter_by start_index fuel i))
    = fuel.
Proof.
  induction fuel as [|fuel IH]; intro i; [reflexivity|].
  rewrite history_loop_S. cbv zeta.
  destruct (snd (for_items _ _ _)); cbn [finished fetches List.length].
  - discriminate.
  - intro H. now rewrite IH.
Qed.

(** X6. A replay that starts beyond the last index of a log of two or
    more operations never returns: however far it is driven it has yielded
    nothing, is not finished, and has issued one more batch request. *)
Theorem replay_beyond_log_never_returns log filter_by start fuel :
  2 <= Z.of_nat (List.length log) ->
  Z.of_nat (List.length log) <= start ->
  let k := history (ledger log) filter_by start fuel in
  yielded k = [] /\ finished k = false
  /\ List.length (fetches k) = S fuel.
Proof.
  intros HN Hs. unfold history. rewrite virtual_op_count_ledger.
  destruct (Z.eqb_spec (Z.max 0 (Z.of_nat (List.length log) - 1)) 0); [lia|].
  cbn [yielded finished fetches List.length].
  destruct (loop_beyond log (Z.max 0 (Z.of_nat (List.length log) - 1))
              filter_by (start + batch_size) fuel (start + batch_size))
    as [Hy Hd]; try (unfold batch_size; lia).
  { unfold batch_lo, batch_limit. rewrite Z.eqb_refl. lia. }
  split; [exact Hy|]. split; [exact Hd|].
  f_equal. now apply unfinished_loop_fetches.
Qed.

Lemma replay_beyond_log_never_returns_witness :
  let k := history (ledger two_ops) FilterNone 2 7 in
  yielded k = [] /\ finished k = false
  /\ List.length (fetches k) = 8%nat.
Proof.
  apply (replay_beyond_log_never_returns two_ops FilterNone 2 7);
    cbn; lia.
Defined.

Lemma filter_length_le {A} (f : A -> bool) (l : list A) :
  (List.length (List.filter f l) <= List.length l)%nat.
Proof.
  induction l as [|x l IH]; simpl; [lia|]. destruct (f x); simpl; lia.
Qed.

(** The start [history2] computes over a numbered log. *)
Lemma history2_start log take :
  0 <= take ->
  (if virtual_op_count (ledger log) - take <? 0 then 0
   else virtual_op_count (ledger log) - take)
  = Z.max 0 (virtual_op_count (ledger log) - take)
  /\ 0 <= Z.max 0 (virtual_op_count (ledger log) - take)
        <= virtual_op_count (ledger log).
Proof.
  intro H. rewrite virtual_op_count_ledger.
  destruct (Z.ltb_spec (Z.max 0 (Z.of_nat (List.length log) - 1) - take) 0);
    lia.
Qed.

(** X7. Over every numbered log, [history2] with [take >= 0] returns once
    driven far enough; without a filter it has then yielded the [take]
    operations before the last one (fewer when the log is shorter), in
    order, and with any filter it has yielded at most [take]. *)
Theorem history2_takes_the_recent log filter_by take :
  0 <= take ->
  exists fuel0, forall fuel, (fuel0 <= fuel)%nat ->
    let last := Z.of_nat (List.length log) - 1 in
    finished (history2 (ledger log) filter_by take fuel) = true
    /\ map index (yielded (history2 (ledger log) FilterNone take fuel)) =
       indices (Z.max 0 (last - take)) last
    /\ Z.of_nat (List.length
                   (yielded (history2 (ledger log) filter_by take fuel)))
       <= take.
Proof.
  intro Ht. destruct (history2_start log take Ht) as [Es Hs].
  destruct (history_in_range log _ (proj1 Hs)) as [fuel0 Hr].
  exists fuel0. intros fuel Hf last. destruct (Hr fuel Hf) as [Hy Hd].
  unfold history2. cbn [yielded finished]. rewrite Es.
  assert (map index (in_range log
                       (Z.max 0 (virtual_op_count (ledger log) - take)))
          = indices (Z.max 0 (last - take)) last) as Hi.
  { rewrite in_range_indices by lia. rewrite virtual_op_count_ledger.
    fold last. destruct (Z.le_gt_cases last 0).
    - rewrite !indices_nil; [reflexivity|lia|lia].
    - f_equal; lia. }
  split; [|split].
  - destruct (filter_leaves_fetches (ledger log) filter_by
                (Z.max 0 (virtual_op_count (ledger log) - take)) fuel)
      as [_ ->].
    apply Hd. lia.
  - now rewrite Hy.
  - rewrite history_matches, Hy.
    pose proof (filter_length_le (matches filter_by)
                  (in_range log
                     (Z.max 0 (virtual_op_count (ledger log) - take)))) as Hl.
    assert (Z.of_nat (List.length
              (in_range log
                 (Z.max 0 (virtual_op_count (ledger log) - take)))) <= take);
      [|lia].
    rewrite <- (length_map index), Hi, indices_length. lia.
Qed.

Lemma history2_takes_the_recent_witness :
  exists fuel0, forall fuel, (fuel0 <= fuel)%nat ->
    let last := Z.of_nat (List.length sample_log) - 1 in
    finished (history2 (ledger sample_log) (FilterStr "vote") 3 fuel) = true
    /\ map index (yielded (history2 (ledger sample_log) FilterNone 3 fuel)) =
       indices (Z.max 0 (last - 3)) last
    /\ Z.of_nat (List.length
                   (yielded (history2 (ledger sample_log)
                               (FilterStr "vote") 3 fuel)))
       <= 3.
Proof.
  apply (history2_takes_the_recent sample_log (FilterStr "vote") 3). lia.
Defined.

Lemma existsb_filter {A} (p m : A -> bool) (l : list A) :
  existsb p (List.filter m l) = existsb (fun x => m x && p x) l.
Proof.
  induction l as [|x l IH]; simpl; [reflexivity|].
  destruct (m x); simpl; now rewrite IH.
Qed.

(** The value of [check_if_already_voted] once the replay has returned. *)
Lemma check_if_already_voted_value log permlink post_permlink :
  exists fuel0, forall fuel, (fuel0 <= fuel)%nat ->
    check_if_already_voted (ledger log) permlink post_permlink fuel =
    Some (existsb
            (fun o => String.eqb (op_type o) "vote"
                      && String.eqb (permlink (op o)) post_permlink)
            (in_range log
               (Z.max 0 (virtual_op_count (ledger log) - 1000)))).
Proof.
  destruct (history2_start log 1000 ltac:(lia)) as [Es Hs].
  destruct (history_in_range log _ (proj1 Hs)) as [fuel0 Hr].
  exists fuel0. intros fuel Hf. destruct (Hr fuel Hf) as [Hy Hd].
  unfold check_if_already_voted, history2. cbn [yielded finished].
  rewrite Es, history_matches, Hy, existsb_filter.
  destruct (filter_leaves_fetches (ledger log) (FilterStr "vote")
              (Z.max 0 (virtual_op_count (ledger log) - 1000)) fuel)
    as [_ ->].
  rewrite Hd by lia. cbn [matches].
  now destruct (existsb _ _).
Qed.

(** X8. Over every numbered log, [check_if_already_voted] answers once the
    replay has been driven far enough, and it answers [True] exactly when
    one of the 1000 operations before the last one is a vote with the
    permlink of the post. *)
Theorem check_if_already_voted_scans_recent log permlink post_permlink :
  exists fuel0, forall fuel, (fuel0 <= fuel)%nat ->
    exists answer,
      check_if_already_voted (ledger log) permlink post_permlink fuel =
        Some answer
      /\ (answer = true <->
          exists o,
            In o (in_range log
                    (Z.max 0 (Z.of_nat (List.length log) - 1 - 1000)))
            /\ op_type o = "vote"%string
            /\ permlink (op o) = post_permlink).
Proof.
  destruct (check_if_already_voted_value log permlink post_permlink)
    as [fuel0 H].
  exists fuel0. intros fuel Hf. eexists. split; [apply H, Hf|].
  rewrite virtual_op_count_ledger.
  replace (Z.max 0 (Z.max 0 (Z.of_nat (List.length log) - 1) - 1000))
    with (Z.max 0 (Z.of_nat (List.length log) - 1 - 1000)) by lia.
  rewrite existsb_exists. split.
  - intros (o & Ho & E). apply andb_true_iff in E. destruct E as [E1 E2].
    apply String.eqb_eq in E1, E2. now exists o.
  - intros (o & Ho & E1 & E2). exists o. split; [exact Ho|].
    apply andb_true_iff. now rewrite E1, E2, !String.eqb_refl.
Qed.

Lemma number_from_app a : forall k b,
  number_from k (a ++ b) =
  number_from k a ++ number_from (k + Z.of_nat (List.length a)) b.
Proof.
  induction a as [|x a IH]; intros k b; cbn [app number_from List.length].
  - now rewrite Z.add_0_r.
  - rewrite IH.
    now replace (k + Z.of_nat (S (List.length a)))
      with (k + 1 + Z.of_nat (List.length a)) by lia.
Qed.

Lemma number_from_entry l : forall k it,
  In it (number_from k l) -> In (snd it) l.
Proof.
  induction l as [|x l IH]; intros k it; cbn; [tauto|].
  intros [<-|H]; [now left|]. right. now apply (IH (k + 1)).
Qed.

(** An operation in range over a log comes from an entry before the last. *)
Lemma in_range_before_last rest e start o :
  In o (in_range (rest ++ [e]) start) ->
  exists x, In x rest /\ op_type o = entry_op_type x /\ op o = entry_op x.
Proof.
  rewrite in_range_between, virtual_op_count_ledger. intro H.
  apply in_map_iff in H. destruct H as (it & <- & H).
  apply filter_In in H. destruct H as [HI Hb].
  apply between_spec in Hb. rewrite number_from_app in HI.
  rewrite length_app in Hb. cbn [List.length] in Hb.
  apply in_app_or in HI. destruct HI as [HI|HI].
  - exists (snd it). split; [now apply number_from_entry in HI|now split].
  - cbn in HI. destruct HI as [<-|[]]. cbn [fst] in Hb. lia.
Qed.

(** X9. A vote that is the last operation of the log is not seen: when no
    earlier vote has the permlink of the post, [check_if_already_voted]
    answers [False], whatever the last operation is. *)
Theorem latest_vote_is_missed rest e permlink post_permlink :
  (forall x, In x rest -> entry_op_type x = "vote"%string ->
             permlink (entry_op x) <> post_permlink) ->
  exists fuel0, forall fuel, (fuel0 <= fuel)%nat ->
    check_if_already_voted (ledger (rest ++ [e])) permlink post_permlink fuel
    = Some false.
Proof.
  intro Hrest.
  destruct (check_if_already_voted_value (rest ++ [e]) permlink post_permlink)
    as [fuel0 H].
  exists fuel0. intros fuel Hf. rewrite (H fuel Hf). f_equal.
  apply not_true_is_false. intro E. apply existsb_exists in E.
  destruct E as (o & Ho & E). apply andb_true_iff in E. destruct E as [E1 E2].
  apply String.eqb_eq in E1, E2.
  apply in_range_before_last in Ho. destruct Ho as (x & Hx & Et & Eo).
  apply (Hrest x Hx); congruence.
Qed.

Lemma latest_vote_is_missed_witness :
  exists fuel0, forall fuel, (fuel0 <= fuel)%nat ->
    check_if_already_voted
      (ledger ([mkEntry "transfer" "p0" "2016-09-01T00:00:00" "t0"]
               ++ [mkEntry "vote" "p1" "2016-09-01T00:00:03" "t1"]))
      (fun body => body) "p1" fuel
    = Some false.
Proof.
  apply (latest_vote_is_missed
           [mkEntry "transfer" "p0" "2016-09-01T00:00:00" "t0"]
           (mkEntry "vote" "p1" "2016-09-01T00:00:03" "t1")
           (fun body => body) "p1").
  intros x [<-|[]]. discriminate.
Defined.

End ReplayFacts.

(** ** Facts about the blog statistics and the date filter *)

Module AccountFacts.
Import Py Account.

Lemma slice_length {A} (l : list A) a b :
  0 <= a -> 0 <= b ->
  Z.of_nat (List.length (slice l a (b + a))) <= b
  /\ (List.length (slice l a (b + a)) <= List.length l)%nat.
Proof.
  intros Ha Hb. unfold slice, clamp_index.
  destruct (Z.ltb_spec a 0), (Z.ltb_spec (b + a) 0); try lia.
  rewrite length_firstn, length_skipn. lia.
Qed.

(** With [skip = 1] the slice does not look at the first post. *)
Lemma slice_skips_first {A} (p q : A) (l : list A) b :
  slice (p :: l) 1 b = slice (q :: l) 1 b.
Proof.
  unfold slice, clamp_index. cbn [List.length].
  change (1 <? 0) with false. cbv iota.
  replace (Z.to_nat (Z.min 1 (Z.of_nat (S (List.length l))))) with 1%nat
    by lia.
  reflexivity.
Qed.

Section BlogFacts.

Variable post : Type.
Variable total_payout : post -> Q.

Local Abbreviation wins r p := (Qle_bool r (total_payout p)).

Lemma count_bounds r (l : list post) : forall acc,
  acc <= fold_left (fun w p => if wins r p then w + 1 else w) l acc
      <= acc + Z.of_nat (List.length l).
Proof.
  induction l as [|x l IH]; intro acc; cbn [fold_left List.length]; [lia|].
  destruct (wins r x).
  - specialize (IH (acc + 1)). lia.
  - specialize (IH acc). lia.
Qed.



(** X10. With [skip >= 0] and [max_posts >= 0], [number_of_winning_posts]
    looks at no more than [max_posts] posts and no more than the blog
    holds, and counts between none and all of them as winners. *)
Theorem winning_posts_bounds blog skip payout_requirement max_posts :
  0 <= skip -> 0 <= max_posts ->
  let r := number_of_winning_posts post total_payout blog skip
             payout_requirement max_posts in
  0 <= fst r <= snd r
  /\ snd r <= max_posts
  /\ snd r <= Z.of_nat (List.length blog).
Proof.
  intros Hs Hm. cbn [number_of_winning_posts fst snd].
  unfold number_of_winning_posts. cbn [fst snd].
  pose proof (slice_length blog skip max_posts Hs Hm) as [H1 H2].
  pose proof (count_bounds payout_requirement
                (slice blog skip (max_posts + skip)) 0) as H3.
  lia.
Qed.

(** X11. With the default [skip = 1] the first post of the blog is left
    out: neither the count of winners nor the average payout depends on
    it. *)
Theorem first_post_is_skipped p q blog payout_requirement max_posts :
  number_of_winning_posts post total_payout (p :: blog) 1
    payout_requirement max_posts
  = number_of_winning_posts post total_payout (q :: blog) 1
      payout_requirement max_posts
  /\ avg_payout_per_post post total_payout (p :: blog) 1 max_posts
     = avg_payout_per_post post total_payout (q :: blog) 1 max_posts.
Proof.
  unfold number_of_winning_posts, avg_payout_per_post.
  now rewrite (slice_skips_first p q).
Qed.


End BlogFacts.

Lemma winning_posts_bounds_witness :
  let r := number_of_winning_posts Q (fun p => p)
             [500%Q; 100%Q; 400%Q; 350%Q] 1 300%Q 2 in
  0 <= fst r <= snd r /\ snd r <= 2 /\ snd r <= 4.
Proof.
  apply (winning_posts_bounds Q (fun p => p)
           [500%Q; 100%Q; 400%Q; 350%Q] 1 300%Q 2); lia.
Defined.


End AccountFacts.

Module DateFacts.
Import Py Account.

Lemma in_open_interval_spec s e ts :
  in_open_interval s e ts = true <-> (s < ts /\ ts < e)%Q.
Proof.
  unfold in_open_interval.
  destruct (Qlt_le_dec ts e), (Qlt_le_dec s ts); split;
    try tauto; try discriminate; intros [H1 H2]; lra.
Qed.

Section Dated.

Variable timestamp : string -> option Q.
Variable now : Q.

(** Whether [filter_by_date] keeps an item that carries its own time. *)
Local Abbreviation kept s e :=
  (fun item => match own_time timestamp item with
               | Some ts => in_open_interval s e ts
               | None => false
               end).

Lemma filter_items_own s e items : forall item_time,
  Forall (fun item => own_time timestamp item <> None) items ->
  filter_items timestamp s e item_time items
  = inr (List.filter (kept s e) items).
Proof.
  induction items as [|item rest IH]; intros item_time H; [reflexivity|].
  inversion H as [|? ? Hitem Hrest]; subst.
  cbn [filter_items List.filter]. unfold own_time in *.
  assert (item_time_of item item_time = item_time_of item None) as ->.
  { unfold item_time_of in *.
    destruct (Ticker.in_list "time" (map fst item)); [reflexivity|].
    destruct (Ticker.in_list "timestamp" (map fst item)); [reflexivity|].
    now contradiction Hitem. }
  destruct (item_time_of item None) as [t|]; [|now contradiction Hitem].
  destruct (timestamp t) as [ts|]; [|now contradiction Hitem].
  now rewrite (IH (Some t) Hrest).
Qed.

(** X13. When the two bounds parse and every item carries a ['time'] or a
    ['timestamp'] that parses, [filter_by_date] returns the items whose
    time lies strictly between the start and the end (now, when no end is
    given), in their order; an item stamped exactly at a bound is left
    out. *)
Theorem filter_by_date_keeps_open_interval items start_time end_time s e :
  timestamp start_time = Some s ->
  end_timestamp timestamp now end_time = Some e ->
  Forall (fun item => own_time timestamp item <> None) items ->
  filter_by_date timestamp now items start_time end_time
    = inr (List.filter (kept s e) items)
  /\ forall item,
       In item (List.filter (kept s e) items) <->
       In item items
       /\ exists ts, own_time timestamp item = Some ts
                     /\ (s < ts /\ ts < e)%Q.
Proof.
  intros Hs He Hitems. unfold filter_by_date. rewrite Hs, He.
  split; [now apply filter_items_own|].
  intro item. rewrite filter_In. split; intros [HI H]; (split; [exact HI|]).
  - destruct (own_time timestamp item) as [ts|]; [|discriminate].
    exists ts. split; [reflexivity|]. now apply in_open_interval_spec.
  - destruct H as (ts & -> & H). now apply in_open_interval_spec.
Qed.

(** X14. An item that carries neither key is judged by the time of the
    item before it: after an item stamped [ts] it is kept exactly when
    that item is kept; as the first item, it makes [filter_by_date] fail
    with [UnboundLocalError]. *)
Theorem item_without_time_follows_previous
    x y rest start_time end_time s e t ts :
  timestamp start_time = Some s ->
  end_timestamp timestamp now end_time = Some e ->
  Ticker.in_list "time" (map fst y) = false ->
  Ticker.in_list "timestamp" (map fst y) = false ->
  item_time_of x None = Some t ->
  timestamp t = Some ts ->
  filter_by_date timestamp now [x; y] start_time end_time
    = inr (if in_open_interval s e ts then [x; y] else [])
  /\ filter_by_date timestamp now (y :: rest) start_time end_time
     = inl UnboundLocalError.
Proof.
  intros Hs He Hy1 Hy2 Hx Ht. unfold filter_by_date. rewrite Hs, He.
  cbn [filter_items]. rewrite Hx, Ht.
  unfold item_time_of at 1 2. rewrite Hy1, Hy2, Ht.
  split; [|reflexivity]. now destruct (in_open_interval s e ts).
Qed.

End Dated.

(** Timestamps read as plain numbers of seconds, for the examples. *)
Lemma filter_by_date_keeps_open_interval_witness :
  filter_by_date Str.decimal 100 sample_items "10" None
    = inr [ [("timestamp", "20")]; [("time", "30")] ]%string.
Proof.
  apply (filter_by_date_keeps_open_interval Str.decimal 100
           sample_items "10" None 10 100).
  - reflexivity.
  - reflexivity.
  - repeat constructor; discriminate.
Defined.

Lemma item_without_time_follows_previous_witness :
  filter_by_date Str.decimal 100
    [ [("time", "30")]; [("id", "7")] ]%string "10" None
    = inr [ [("time", "30")]; [("id", "7")] ]%string
  /\ filter_by_date Str.decimal 100
       ([("id", "7")]%string :: sample_items) "10" None
     = inl UnboundLocalError.
Proof.
  apply (item_without_time_follows_previous Str.decimal 100
           [("time", "30")]%string [("id", "7")]%string sample_items
           "10" None 10 100 "30" 30); reflexivity.
Defined.

End DateFacts.

(** ** Facts about class Post *)

Module PostFacts.
Import Post.

Local Open Scope Q_scope.

(** X15. [calc_reward_pct] never exceeds 100, reaches 100 from 1800
    seconds on, does not decrease as time passes, and is not negative for a
    non-negative elapsed time. *)
Theorem calc_reward_pct_bounds t1 t2 :
  t1 <= t2 ->
  calc_reward_pct t1 <= calc_reward_pct t2
  /\ calc_reward_pct t2 <= 100
  /\ (1800 <= t2 -> calc_reward_pct t2 == 100)
  /\ (0 <= t1 -> 0 <= calc_reward_pct t1)
  /\ (t2 <= 1800 -> calc_reward_pct t2 == t2 / 18).
Proof.
  intro H. unfold calc_reward_pct.
  assert (forall t, t / 1800 * 100 == t / 18) as E by (intro; field).
  destruct (Qlt_le_dec 100 (t1 / 1800 * 100)) as [H1|H1],
    (Qlt_le_dec 100 (t2 / 1800 * 100)) as [H2|H2];
    rewrite ?E in *;
    assert (t1 / 18 == t1 * (1 # 18)) as E1 by field;
    assert (t2 / 18 == t2 * (1 # 18)) as E2 by field;
    rewrite ?E1, ?E2 in *; repeat split; intros; rewrite ?E, ?E1, ?E2;
    try lra.
Qed.

Lemma calc_reward_pct_bounds_witness :
  calc_reward_pct 900 <= calc_reward_pct 3600
  /\ calc_reward_pct 3600 <= 100
  /\ (1800 <= 3600 -> calc_reward_pct 3600 == 100)
  /\ (0 <= 900 -> 0 <= calc_reward_pct 900)
  /\ (3600 <= 1800 -> calc_reward_pct 3600 == 3600 / 18).
Proof.
  apply (calc_reward_pct_bounds 900 3600). discriminate.
Defined.

Local Close Scope Q_scope.

Section VotesFacts.

Variable time_diff : string -> string -> Q.

Lemma get_votes_loop_result created from_account active_votes : forall seen,
  match get_votes_loop time_diff created from_account seen active_votes with
  | OneVote v =>
      exists before x after,
        active_votes = before ++ x :: after
        /\ v = stamp time_diff created x
        /\ is_from from_account x = true
        /\ Forall (fun y => is_from from_account y = false) before
  | AllVotes l =>
      l = seen ++ map (stamp time_diff created) active_votes
      /\ Forall (fun y => is_from from_account y = false) active_votes
  end.
Proof.
  induction active_votes as [|v rest IH]; intro seen; cbn [get_votes_loop].
  - split; [now rewrite app_nil_r|constructor].
  - change (is_from from_account (stamp time_diff created v))
      with (is_from from_account v).
    destruct (is_from from_account v) eqn:E.
    + exists [], v, rest. repeat split; [exact E|constructor].
    + specialize (IH (seen ++ [stamp time_diff created v])).
      destruct (get_votes_loop _ _ _ _ rest) as [w|l].
      * destruct IH as (before & x & after & -> & -> & Hx & Hb).
        exists (v :: before), x, after. repeat split; [exact Hx|].
        now constructor.
      * destruct IH as [-> Hr]. split; [|now constructor].
        now rewrite <- app_assoc.
Qed.

(** X29. [get_votes] returns a single vote exactly when [from_account] is
    given and has voted, and then it is the first vote of that account,
    with its elapsed time set; in every other case, also when the account
    has not voted, it returns all the votes, in order, each with its
    elapsed time set. *)
Theorem get_votes_result created active_votes from_account :
  match get_votes time_diff created active_votes from_account with
  | OneVote v =>
      exists before x after,
        active_votes = before ++ x :: after
        /\ v = stamp time_diff created x
        /\ is_from from_account x = true
        /\ Forall (fun y => is_from from_account y = false) before
  | AllVotes l =>
      l = map (stamp time_diff created) active_votes
      /\ Forall (fun y => is_from from_account y = false) active_votes
  end.
Proof.
  apply (get_votes_loop_result created from_account active_votes []).
Qed.

End VotesFacts.

End PostFacts.

(** ** More facts about the reward arithmetic *)

Module ConverterMoreFacts.
Import Py Converter ConverterFacts ConverterMore.

Local Open Scope Q_scope.

Lemma true_div_raises a b e :
  true_div a b = Raise e <-> e = ZeroDivisionError /\ b == 0.
Proof.
  unfold true_div. destruct (Qeq_bool b 0) eqn:E.
  - apply Qeq_bool_eq in E. split; [intro H; now inversion H|].
    now intros [-> _].
  - apply Qeq_bool_neq in E. split; [discriminate|tauto].
Qed.

(** X16. With a non-zero amount of vesting shares, [steem_per_mvests] is
    defined, and [vests_to_power] at that rate turns the total vesting
    shares into the total vesting fund. *)
Theorem all_vests_are_the_fund total_vesting_fund_steem total_vesting_shares :
  ~ total_vesting_shares == 0 ->
  exists rate,
    steem_per_mvests total_vesting_fund_steem total_vesting_shares = Ok rate
    /\ vests_to_power rate total_vesting_shares == total_vesting_fund_steem.
Proof.
  intro H. unfold steem_per_mvests. eexists. split.
  - apply true_div_defined. intro E. apply H.
    setoid_replace total_vesting_shares
      with (total_vesting_shares / 1000000 * 1000000) by field.
    rewrite E. reflexivity.
  - unfold vests_to_power. field. exact H.
Qed.

Lemma all_vests_are_the_fund_witness :
  exists rate,
    steem_per_mvests 180000000 370000000000 = Ok rate
    /\ vests_to_power rate 370000000000 == 180000000.
Proof.
  apply (all_vests_are_the_fund 180000000 370000000000). discriminate.
Defined.

(** X17. With a non-zero median price, [sbd_to_steem] is defined and
    undoes [steem_to_sbd], and [steem_to_sbd] undoes [sbd_to_steem]. *)
Theorem sbd_steem_inverse sbd_median_price amount :
  ~ sbd_median_price == 0 ->
  (exists steem,
     sbd_to_steem sbd_median_price (steem_to_sbd sbd_median_price amount)
       = Ok steem
     /\ steem == amount)
  /\ (exists steem,
        sbd_to_steem sbd_median_price amount = Ok steem
        /\ steem_to_sbd sbd_median_price steem == amount).
Proof.
  intro H. unfold sbd_to_steem, steem_to_sbd. split; eexists;
    (split; [apply true_div_defined; exact H|]); field; exact H.
Qed.

Lemma sbd_steem_inverse_witness :
  (exists steem,
     sbd_to_steem (5 # 2) (steem_to_sbd (5 # 2) 12) = Ok steem
     /\ steem == 12)
  /\ (exists steem,
        sbd_to_steem (5 # 2) 12 = Ok steem
        /\ steem_to_sbd (5 # 2) steem == 12).
Proof.
  apply (sbd_steem_inverse (5 # 2) 12). discriminate.
Defined.

(** X18. The conversions fail in one way only: [sp_to_vests] and
    [sp_to_rshares] raise exactly when [steem_per_mvests] is zero,
    [sbd_to_steem] exactly when the median price is zero,
    [steem_per_mvests] exactly when there are no vesting shares, and what
    they raise is [ZeroDivisionError]. *)
Theorem conversions_raise_on_zero_rate rate x voting_power vote_pct e :
  (sp_to_vests rate x = Raise e <-> e = ZeroDivisionError /\ rate == 0)
  /\ (sp_to_rshares rate x voting_power vote_pct = Raise e
      <-> e = ZeroDivisionError /\ rate == 0)
  /\ (sbd_to_steem rate x = Raise e <-> e = ZeroDivisionError /\ rate == 0)
  /\ (steem_per_mvests x rate = Raise e
      <-> e = ZeroDivisionError /\ rate == 0).
Proof.
  split; [apply true_div_raises|]. split; [|split].
  - unfold sp_to_rshares, sp_to_vests.
    rewrite <- (true_div_raises (x * 1000000) rate e).
    destruct (true_div (x * 1000000) rate); cbn [bind];
      split; intro H; try exact H; discriminate.
  - apply true_div_raises.
  - unfold steem_per_mvests. rewrite true_div_raises.
    split; intros [-> H]; (split; [reflexivity|]).
    + setoid_replace rate with (rate / 1000000 * 1000000) by field.
      rewrite H. reflexivity.
    + rewrite H. reflexivity.
Qed.

Lemma int_le x y : x <= y -> (int x <= int y)%Z.
Proof.
  intro H. destruct (Qlt_le_dec x 0) as [Hx|Hx], (Qlt_le_dec y 0) as [Hy|Hy].
  - rewrite !int_nonpos by lra. now apply Qceiling_resp_le.
  - rewrite (int_nonpos x), (int_nonneg y) by lra.
    assert (Qceiling x <= 0)%Z.
    { change 0%Z with (Qceiling 0). apply Qceiling_resp_le. lra. }
    assert (0 <= Qfloor y)%Z.
    { change 0%Z with (Qfloor 0). now apply Qfloor_resp_le. }
    lia.
  - lra.
  - rewrite !int_nonneg by lra. now apply Qfloor_resp_le.
Qed.

Lemma int_zero x : x == 0 -> int x = 0%Z.
Proof.
  intro E.
  assert (x <= 0) as H1 by (rewrite E; apply Qle_refl).
  assert (0 <= x) as H2 by (rewrite E; apply Qle_refl).
  apply int_le in H1, H2. change (int 0) with 0%Z in *. lia.
Qed.

(** X19. With a positive [steem_per_mvests] and a voting power and
    percentage whose product is not negative, [sp_to_rshares] does not
    decrease when the power grows, and it is 0 for a power of 0. *)
Theorem sp_to_rshares_grows_with_power rate sp1 sp2 voting_power vote_pct :
  0 < rate -> 0 <= voting_power * vote_pct -> sp1 <= sp2 ->
  exists r0 r1 r2,
    sp_to_rshares rate 0 voting_power vote_pct = Ok r0 /\ r0 == 0
    /\ sp_to_rshares rate sp1 voting_power vote_pct = Ok r1
    /\ sp_to_rshares rate sp2 voting_power vote_pct = Ok r2
    /\ r1 <= r2.
Proof.
  intros Hr Hp Hs. unfold sp_to_rshares, sp_to_vests.
  rewrite !true_div_defined by lra. cbn [bind]. do 3 eexists.
  split; [reflexivity|]. split; [|split; [reflexivity|split; [reflexivity|]]].
  - rewrite int_zero by (field; lra).
    unfold Qdiv. ring.
  - assert (int (sp1 * 1000000 / rate * 1000000)
            <= int (sp2 * 1000000 / rate * 1000000))%Z as Hi.
    { apply int_le. apply Qmult_le_compat_r; [|lra].
      apply Qle_shift_div_l; [exact Hr|].
      setoid_replace (sp1 * 1000000 / rate * rate) with (sp1 * 1000000)
        by (field; lra).
      lra. }
    rewrite Zle_Qle in Hi.
    set (v1 := inject_Z (int (sp1 * 1000000 / rate * 1000000))) in *.
    set (v2 := inject_Z (int (sp2 * 1000000 / rate * 1000000))) in *.
    set (power := voting_power * vote_pct / 10000 / 200 + 1).
    assert (1 <= power) as Hpow.
    { unfold power.
      setoid_replace (voting_power * vote_pct / 10000 / 200)
        with (voting_power * vote_pct * (1 # 2000000)) by field.
      lra. }
    apply Qmult_le_compat_r; [|discriminate].
    apply Qmult_le_l; lra.
Qed.

Lemma sp_to_rshares_grows_with_power_witness :
  exists r0 r1 r2,
    sp_to_rshares 500 0 10000 10000 = Ok r0 /\ r0 == 0
    /\ sp_to_rshares 500 1 10000 10000 = Ok r1
    /\ sp_to_rshares 500 2 10000 10000 = Ok r2
    /\ r1 <= r2.
Proof.
  apply (sp_to_rshares_grows_with_power 500 1 2 10000 10000);
    [reflexivity|discriminate|discriminate].
Defined.

(** X20. [rshares_2_weight] raises exactly at [rshares = -4000000000000],
    where the denominator is zero, and what it raises is
    [ZeroDivisionError]. *)
Theorem rshares_2_weight_raises rshares e :
  rshares_2_weight rshares = Raise e
  <-> e = ZeroDivisionError /\ rshares == - (2 * 2000000000000).
Proof.
  unfold rshares_2_weight. rewrite true_div_raises.
  change CONTENT_CONSTANT with 2000000000000.
  split; intros [-> H]; (split; [reflexivity|]); lra.
Qed.

(** X21. The weight comes as close to [2^64 - 1] as one likes: for every
    positive margin there is a threshold from which on the weight lies
    within the margin below [2^64 - 1]. *)
Theorem rshares_2_weight_saturates margin :
  0 < margin ->
  exists threshold, 0 <= threshold /\ forall rshares,
    threshold <= rshares ->
    exists w, rshares_2_weight rshares = Ok w
              /\ inject_Z (2 ^ 64 - 1) - margin < w
              /\ w < inject_Z (2 ^ 64 - 1).
Proof.
  intro Hm.
  exists (inject_Z (2 ^ 64 - 1) * (2 * CONTENT_CONSTANT) / margin).
  change (inject_Z (2 ^ 64 - 1)) with 18446744073709551615.
  change CONTENT_CONSTANT with 2000000000000.
  assert (0 <= 18446744073709551615 * (2 * 2000000000000) / margin) as H0.
  { apply Qle_shift_div_l; [exact Hm|]. lra. }
  split; [exact H0|]. intros r Hr.
  assert (18446744073709551615 * (2 * 2000000000000) <= margin * r) as Hmr.
  { setoid_replace (18446744073709551615 * (2 * 2000000000000))
      with (margin * (18446744073709551615 * (2 * 2000000000000) / margin))
      by (field; lra).
    apply Qmult_le_l; assumption. }
  eexists. split; [apply weight_defined; lra|].
  change (inject_Z (2 ^ 64 - 1)) with 18446744073709551615.
  change CONTENT_CONSTANT with 2000000000000.
  split.
  - apply Qlt_shift_div_l; [lra|].
    setoid_replace ((18446744073709551615 - margin) * (2 * 2000000000000 + r))
      with (18446744073709551615 * (2 * 2000000000000)
            + 18446744073709551615 * r
            - margin * (2 * 2000000000000) - margin * r) by ring.
    lra.
  - apply Qlt_shift_div_r; lra.
Qed.

Lemma rshares_2_weight_saturates_witness :
  exists threshold, 0 <= threshold /\ forall rshares,
    threshold <= rshares ->
    exists w, rshares_2_weight rshares = Ok w
              /\ inject_Z (2 ^ 64 - 1) - 1 < w
              /\ w < inject_Z (2 ^ 64 - 1).
Proof.
  apply (rshares_2_weight_saturates 1). reflexivity.
Defined.

End ConverterMoreFacts.

(** ** More facts about the ticker *)

Module TickerMoreFacts.
Import Py Str StrFacts Ticker TickerFacts TickerMore.

Local Open Scope string_scope.

Lemma chars_append a b : chars (a ++ b) = (chars a ++ chars b)%list.
Proof.
  induction a as [|c a IH]; [reflexivity|]. cbn. f_equal. exact IH.
Qed.

Lemma no_slash s : contains "/" s = false <-> ~ In "/"%char (chars s).
Proof.
  rewrite <- contains_slash. now destruct (contains "/" s).
Qed.

(** Replacing the slash leaves no slash behind. *)
Lemma replace_chars_removes new fuel :
  ~ In "/"%char new ->
  forall s, (List.length s <= fuel)%nat ->
    ~ In "/"%char (replace_chars fuel ["/"%char] new s).
Proof.
  intro Hnew. induction fuel as [|fuel IH]; intros s Hlen.
  - destruct s; [simpl; tauto|simpl in Hlen; lia].
  - destruct s as [|c s]; [simpl; tauto|]. cbn [replace_chars starts_with].
    simpl in Hlen. destruct (Ascii.eqb "/" c) eqn:E; cbn [andb].
    + cbn [List.length skipn]. intro H. apply in_app_or in H.
      destruct H as [H|H]; [now apply Hnew|]. revert H. apply IH. lia.
    + apply Ascii.eqb_neq in E. intros [H|H]; [congruence|].
      revert H. apply IH. lia.
Qed.

Lemma replace_removes_slash new s :
  ~ In "/"%char (chars new) -> contains "/" (replace "/" new s) = false.
Proof.
  intro H. apply no_slash. unfold replace. cbn [chars list_ascii_of_string].
  rewrite chars_text. now apply replace_chars_removes.
Qed.

Lemma split_chars_parts sep s :
  Forall (fun p => ~ In sep p) (split_chars sep s).
Proof.
  induction s as [|c s IH]; cbn [split_chars].
  - constructor; [simpl; tauto|constructor].
  - destruct (Ascii.eqb c sep) eqn:E.
    + constructor; [simpl; tauto|exact IH].
    + apply Ascii.eqb_neq in E.
      destruct (split_chars sep s) as [|p ps].
      * constructor; [|constructor]. intros [H|[]]. congruence.
      * inversion IH as [|? ? Hp Hps]; subst. constructor; [|exact Hps].
        intros [H|H]; [congruence|now apply Hp].
Qed.

Lemma format_has_no_slash sep s symbol :
  ~ In "/"%char (chars sep) ->
  format_1_0 sep (split "/" s) = Ok symbol ->
  contains "/" symbol = false.
Proof.
  intros Hsep H. unfold split in H.
  pose proof (split_chars_parts "/" (chars s)) as Hparts.
  destruct (split_chars "/" (chars s)) as [|p0 [|p1 ps]]; try discriminate.
  cbn in H. injection H as <-.
  inversion Hparts as [|? ? H0 Hrest]; subst.
  inversion Hrest as [|? ? H1 _]; subst.
  apply no_slash. rewrite !chars_append, !chars_text.
  intro HI. apply in_app_or in HI. destruct HI as [HI|HI]; [tauto|].
  apply in_app_or in HI. tauto.
Qed.

(** X22. A symbol that [get_ticker_symbol] returns holds no slash, for
    every exchange and every pair. *)
Theorem symbol_has_no_slash pair exchange symbol :
  get_ticker_symbol pair exchange = Ok symbol ->
  contains "/" symbol = false.
Proof.
  unfold get_ticker_symbol.
  destruct (in_list exchange (map fst URLS)) eqn:Hx; [|discriminate].
  destruct (contains "/" pair); [|discriminate]. cbn [negb].
  apply in_list_spec in Hx. simpl in Hx.
  destruct Hx as [<-|[<-|[<-|[<-|[<-|[<-|[]]]]]]];
    cbn -[replace upper split contains]; intro H;
    try (injection H as <-; apply replace_removes_slash;
         simpl; intuition discriminate);
    (eapply format_has_no_slash; [|exact H]);
    simpl; intuition discriminate.
Qed.

Lemma symbol_has_no_slash_witness :
  contains "/" "USDT-BTC" = false.
Proof.
  apply (symbol_has_no_slash "btc/usd" "bittrex" "USDT-BTC"). reflexivity.
Defined.

Section PriceFacts.

Variable float_of_text : string -> option Q.
Variable get : string -> response.

(** X23. A pair without a slash is refused before any request is sent:
    [price] raises [TickerError] whatever the exchanges would answer. *)
Theorem price_refuses_pair_without_slash pair :
  contains "/" pair = false ->
  price float_of_text get pair = Raise TickerError
  /\ requested_urls pair = [].
Proof.
  intro H.
  assert (format_urls pair URLS = Raise TickerError) as E.
  { cbn [format_urls URLS]. unfold get_ticker_symbol at 1.
    cbn -[contains]. rewrite H. reflexivity. }
  unfold price, surviving_quotes, requested_urls. now rewrite E.
Qed.

Lemma format_urls_defined pair :
  contains "/" pair = true -> exists items, format_urls pair URLS = Ok items.
Proof.
  intro H. cbn [format_urls URLS].
  repeat match goal with
  | |- context [get_ticker_symbol pair ?k] =>
      let s := fresh "s" in
      destruct (get_ticker_symbol_returns pair k H) as [s ->];
      [simpl; tauto|]; cbn [bind]
  end.
  eauto.
Qed.

Lemma valid_responses_none (responses : list response) :
  Forall failed responses -> valid_responses responses = Ok [].
Proof.
  induction 1 as [|r l Hr Hl IH]; [reflexivity|].
  cbn [valid_responses]. rewrite IH.
  destruct r as [|st u b]; [reflexivity|]. cbn in Hr.
  destruct (Z.eqb_spec st 200); [contradiction|reflexivity].
Qed.

(** X24. When every request fails, times out or comes back with a status
    other than 200, [price] raises [TickerError] for a pair with a slash,
    and nothing else. *)
Theorem price_without_answers pair :
  contains "/" pair = true ->
  (forall url, failed (get url)) ->
  price float_of_text get pair = Raise TickerError.
Proof.
  intros Hp Hget. destruct (format_urls_defined pair Hp) as [items E].
  unfold price, surviving_quotes. rewrite E. cbn [bind].
  rewrite valid_responses_none; [reflexivity|].
  apply Forall_forall. intros r Hr. apply in_map_iff in Hr.
  destruct Hr as (url & <- & _). apply Hget.
Qed.

Lemma valid_responses_bad_body (responses : list response) u :
  In (Response 200 u None) responses ->
  valid_responses responses = Raise ValueError.
Proof.
  induction responses as [|r l IH]; intro H; [destruct H|].
  cbn [valid_responses]. destruct H as [->|H].
  - reflexivity.
  - rewrite (IH H). destruct r as [|st v [j|]]; cbn [bind];
      try reflexivity; destruct (st =? 200)%Z; reflexivity.
Qed.

(** X25. A response with status 200 whose body is not JSON is not dropped:
    when one of the requested URLs answers so, [price] raises
    [ValueError], whatever the other exchanges answer. *)
Theorem price_raises_on_bad_body pair url u :
  In url (requested_urls pair) ->
  get url = Response 200 u None ->
  price float_of_text get pair = Raise ValueError.
Proof.
  unfold requested_urls, price, surviving_quotes. intros HI Hget.
  destruct (format_urls pair URLS) as [items|e]; [|destruct HI].
  cbn [bind]. rewrite (valid_responses_bad_body _ u); [reflexivity|].
  rewrite <- Hget. now apply in_map.
Qed.

Lemma weighted_sum_bounds lo hi (quotes : list quote) :
  Forall (fun q => (0 < quote_volume q
                    /\ lo <= quote_price q /\ quote_price q <= hi)%Q) quotes ->
  (0 <= Qsum (map quote_volume quotes)
   /\ lo * Qsum (map quote_volume quotes)
      <= Qsum (map (fun x => quote_price x * quote_volume x) quotes)
   /\ Qsum (map (fun x => quote_price x * quote_volume x) quotes)
      <= hi * Qsum (map quote_volume quotes))%Q.
Proof.
  induction 1 as [|q l (Hv & Hlo & Hhi) Hl (IH0 & IH1 & IH2)]; cbn [map Qsum].
  - split; [lra|split; lra].
  - set (S := Qsum (map quote_volume l)) in *.
    set (W := Qsum (map (fun x => quote_price x * quote_volume x)%Q l)) in *.
    assert (lo * quote_volume q <= quote_price q * quote_volume q)%Q
      by (apply Qmult_le_compat_r; lra).
    assert (quote_price q * quote_volume q <= hi * quote_volume q)%Q
      by (apply Qmult_le_compat_r; lra).
    split; [lra|]. split.
    + setoid_replace (lo * (quote_volume q + S))%Q
        with (lo * quote_volume q + lo * S)%Q by ring. lra.
    + setoid_replace (hi * (quote_volume q + S))%Q
        with (hi * quote_volume q + hi * S)%Q by ring. lra.
Qed.

(** X26. When the surviving quotes all have a positive volume, [price]
    returns, and what it returns lies between the lowest and the highest
    of their prices. *)
Theorem price_lies_between_quotes pair prices lo hi :
  surviving_quotes float_of_text get pair = Ok prices ->
  prices <> [] ->
  Forall (fun q => (0 < quote_volume q
                    /\ lo <= quote_price q /\ quote_price q <= hi)%Q)
         (map snd prices) ->
  exists p, price float_of_text get pair = Ok p /\ (lo <= p /\ p <= hi)%Q.
Proof.
  intros Hs Hne Hq.
  destruct (price_of_quotes float_of_text get pair prices Hs) as (_ & _ & H).
  destruct (weighted_sum_bounds lo hi _ Hq) as (H0 & H1 & H2).
  assert (0 < Qsum (map quote_volume (map snd prices)))%Q as Hpos.
  { destruct prices as [|x l]; [congruence|].
    inversion Hq as [|? ? (Hv & _) Hl]; subst.
    destruct (weighted_sum_bounds lo hi _ Hl) as (Hl0 & _).
    cbn [map Qsum]. lra. }
  exists (vwap (map snd prices)). split.
  - apply H; [exact Hne|]. intro E. rewrite E in Hpos. discriminate.
  - unfold vwap. split.
    + apply Qle_shift_div_l; assumption.
    + apply Qle_shift_div_r; assumption.
Qed.

End PriceFacts.

Lemma price_refuses_pair_without_slash_witness :
  price decimal (network two_quotes) "btcusd" = Raise TickerError
  /\ requested_urls "btcusd" = [].
Proof.
  apply (price_refuses_pair_without_slash decimal (network two_quotes)
           "btcusd").
  reflexivity.
Defined.

Lemma price_without_answers_witness :
  price decimal (fun url => Response 404 url None) "btc/usd"
  = Raise TickerError.
Proof.
  apply (price_without_answers decimal (fun url => Response 404 url None)
           "btc/usd").
  - reflexivity.
  - intro url. discriminate.
Defined.

Lemma price_raises_on_bad_body_witness :
  price decimal
    (fun url => if String.eqb url coinbase_btc_usd
                then Response 200 url None
                else network two_quotes url)
    "btc/usd"
  = Raise ValueError.
Proof.
  apply (price_raises_on_bad_body decimal _ "btc/usd" coinbase_btc_usd
           coinbase_btc_usd).
  - vm_compute. tauto.
  - reflexivity.
Defined.

Lemma price_lies_between_quotes_witness :
  exists p, price decimal (network two_quotes) "btc/usd" = Ok p
            /\ (10 <= p /\ p <= 20)%Q.
Proof.
  apply (price_lies_between_quotes decimal (network two_quotes) "btc/usd"
           [ ("bitstamp", {| quote_price := 20; quote_volume := 3 |});
             ("coinbase", {| quote_price := 10; quote_volume := 1 |}) ]).
  - vm_compute. reflexivity.
  - discriminate.
  - repeat constructor; discriminate.
Defined.

Lemma split_chars_single sep s :
  ~ In sep s -> split_chars sep s = [s].
Proof.
  induction s as [|c s IH]; intro H; [reflexivity|]. cbn [split_chars].
  destruct (Ascii.eqb_spec c sep) as [->|_]; [contradiction H; now left|].
  rewrite IH; [reflexivity|]. intro HI. apply H. now right.
Qed.

(** X27. [Gold.price_oz] gives 0 when the request fails or the status is
    not 200, and so does [price_mg]; but a response with status 200 whose
    first element holds no comma is not turned into 0: both raise
    [IndexError]. *)
Theorem gold_price_edges float_of_text get u s rest :
  ~ In ","%char (chars s) ->
  (failed (get Gold_URL) ->
   price_oz float_of_text get = Ok 0%Q
   /\ price_mg float_of_text get = Ok (0 / GRAM_PER_OZ / 1000)%Q)
  /\ (get Gold_URL = Response 200 u (Some (JList (JStr s :: rest))) ->
      price_oz float_of_text get = Raise IndexError
      /\ price_mg float_of_text get = Raise IndexError).
Proof.
  intro Hs. unfold price_mg, price_oz. split.
  - destruct (get Gold_URL) as [|st v b]; cbn [failed]; intro H.
    + now split.
    + destruct (Z.eqb_spec st 200); [contradiction|now split].
  - intros ->. cbn [Z.eqb Pos.eqb second_field getitem_0 bind].
    unfold split. rewrite split_chars_single by exact Hs. now split.
Qed.

Lemma gold_price_edges_witness :
  (failed (network [] Gold_URL) ->
   price_oz decimal (network []) = Ok 0%Q
   /\ price_mg decimal (network []) = Ok (0 / GRAM_PER_OZ / 1000)%Q)
  /\ (network [(Gold_URL, JList [JStr "1294.5"])] Gold_URL
      = Response 200 Gold_URL (Some (JList [JStr "1294.5"])) ->
      price_oz decimal (network [(Gold_URL, JList [JStr "1294.5"])])
        = Raise IndexError
      /\ price_mg decimal (network [(Gold_URL, JList [JStr "1294.5"])])
         = Raise IndexError).
Proof.
  split.
  - apply (gold_price_edges decimal (network []) Gold_URL "1294.5" []).
    simpl. intuition discriminate.
  - apply (gold_price_edges decimal
             (network [(Gold_URL, JList [JStr "1294.5"])])
             Gold_URL "1294.5" []).
    simpl. intuition discriminate.
Defined.

Local Open Scope Q_scope.

(** X28. For bids that are not negative and not above a positive ask,
    [calc_spread] returns a percentage between 0 and 100; a higher bid
    gives a spread that is not wider, and a bid equal to the ask gives
    0. *)
Theorem calc_spread_bounds bid1 bid2 ask :
  0 <= bid1 -> bid1 <= bid2 -> bid2 <= ask -> 0 < ask ->
  exists s1 s2,
    calc_spread bid1 ask = inr s1
    /\ calc_spread bid2 ask = inr s2
    /\ 0 <= s2 /\ s2 <= s1 /\ s1 <= 100
    /\ (bid2 == ask -> s2 == 0).
Proof.
  intros H0 H12 H2a Ha. unfold calc_spread.
  destruct (Qeq_bool ask 0) eqn:E; [apply Qeq_bool_eq in E; lra|].
  do 2 eexists. split; [reflexivity|]. split; [reflexivity|].
  assert (0 <= bid1 / ask) as Q0 by (apply Qle_shift_div_l; lra).
  assert (bid1 / ask <= bid2 / ask) as Q1.
  { apply Qle_shift_div_l; [exact Ha|].
    setoid_replace (bid1 / ask * ask) with bid1 by (field; lra).
    exact H12. }
  assert (bid2 / ask <= 1) as Q2 by (apply Qle_shift_div_r; lra).
  repeat split; try lra.
  intro Heq. rewrite Heq.
  setoid_replace (ask / ask) with 1 by (field; lra). reflexivity.
Qed.

Lemma calc_spread_bounds_witness :
  exists s1 s2,
    calc_spread 99 100 = inr s1
    /\ calc_spread 100 100 = inr s2
    /\ 0 <= s2 /\ s2 <= s1 /\ s1 <= 100
    /\ (100 == 100 -> s2 == 0).
Proof.
  apply (calc_spread_bounds 99 100 100); discriminate || reflexivity.
Defined.

End TickerMoreFacts.
